(** * workz: presence detection, inspection state machine and vote aggregation

  A shallow embedding of the real-time decision pipeline of the workz
  visual-inspection application:

  - [CameraManager.detectProductPresence] : frame differencing with an
    exit-frame debounce counter;
  - [Inspector.processFrame], [Inspector._getAggregatedResult] and
    [Inspector.manualInspect] : the inspection state machine and the
    majority vote over the prediction buffer.

  Methods of the two JavaScript classes mutate [this]; they are embedded
  as computations in a state monad over a record holding the fields of
  the object.  JavaScript numbers are IEEE 754 binary64 values and are
  embedded as primitive floats wherever the source divides or compares
  against a fractional constant; pixel bytes and counters, which stay
  small integers, are embedded as [Z] and [nat]. *)

From Stdlib Require Import Bool Arith ZArith NArith Lia List String Ascii.
From Stdlib Require Import Floats DecimalString DecimalN.
From ExtLib Require Import Structures.Monad Structures.MonadState.
From ExtLib Require Import Data.Monads.StateMonad.
Import ListNotations.
Import MonadNotation.
Local Open Scope monad_scope.
Local Open Scope string_scope.
Local Open Scope nat_scope.
Local Open Scope list_scope.

Set Warnings "-inexact-float".

(** A method of a class whose fields are the record [S], returning [A]. *)
Abbreviation method := state (only parsing).

(** ** JavaScript numbers *)

Module JsNumber.

(** A non-negative integer as a double (exact below 2^53). *)
Definition ofZ (z : Z) : float := PrimFloat.of_uint63 (Uint63.of_Z z).
Definition ofNat (n : nat) : float := ofZ (Z.of_nat n).

(** [a > b] on numbers: false as soon as an operand is NaN. *)
Definition gt (a b : float) : bool := PrimFloat.ltb b a.

(** ToBoolean on a number: [+0], [-0] and [NaN] are falsy. *)
Definition truthy (x : float) : bool :=
  negb (PrimFloat.eqb x 0 || PrimFloat.is_nan x).

(** [x || 0] on a number. *)
Definition orZero (x : float) : float := if truthy x then x else 0%float.

End JsNumber.

(** ** CameraManager: presence detection *)

Module CameraManager.

(** [ImageData.data]: the RGBA bytes of a frame, row-major, each in
    0..255. *)
Definition ImageData := list Z.

(** Result of [detectProductPresence]. *)
Record PresenceSignal := {
  present : bool;
  justEntered : bool;
  justLeft : bool
}.

Definition allFalse : PresenceSignal :=
  {| present := false; justEntered := false; justLeft := false |}.

(** Fields of the [CameraManager] object that presence detection reads
    or writes. *)
Record t := {
  isActive : bool;
  _prevFrame : option ImageData;
  _motionThreshold : float;
  _presenceThreshold : float;
  _exitFrameCount : nat;
  _exitFrameRequired : nat;
  _productPresent : bool
}.

(** The constructor. *)
Definition new : t :=
  {| isActive := false;
     _prevFrame := None;
     _motionThreshold := 25;
     _presenceThreshold := 0.02;
     _exitFrameCount := 0;
     _exitFrameRequired := 15;
     _productPresent := false |}.

(** [start()] on a camera that could be opened: [this.isActive = true]. *)
Definition started (c : t) : t :=
  {| isActive := true;
     _prevFrame := _prevFrame c;
     _motionThreshold := _motionThreshold c;
     _presenceThreshold := _presenceThreshold c;
     _exitFrameCount := _exitFrameCount c;
     _exitFrameRequired := _exitFrameRequired c;
     _productPresent := _productPresent c |}.

Definition set_prevFrame (f : option ImageData) (c : t) : t :=
  {| isActive := isActive c;
     _prevFrame := f;
     _motionThreshold := _motionThreshold c;
     _presenceThreshold := _presenceThreshold c;
     _exitFrameCount := _exitFrameCount c;
     _exitFrameRequired := _exitFrameRequired c;
     _productPresent := _productPresent c |}.

Definition set_exitFrameCount (n : nat) (c : t) : t :=
  {| isActive := isActive c;
     _prevFrame := _prevFrame c;
     _motionThreshold := _motionThreshold c;
     _presenceThreshold := _presenceThreshold c;
     _exitFrameCount := n;
     _exitFrameRequired := _exitFrameRequired c;
     _productPresent := _productPresent c |}.

Definition set_productPresent (b : bool) (c : t) : t :=
  {| isActive := isActive c;
     _prevFrame := _prevFrame c;
     _motionThreshold := _motionThreshold c;
     _presenceThreshold := _presenceThreshold c;
     _exitFrameCount := _exitFrameCount c;
     _exitFrameRequired := _exitFrameRequired c;
     _productPresent := b |}.

(** What one call observes of the video element: its [readyState] and
    the 160 x 120 image [getImageData] returns for the current frame. *)
Record Video := {
  readyState : Z;
  frame : ImageData
}.

Definition w : Z := 160.
Definition h : Z := 120.

(** Body of the sampling loop at index [i]:
    [(dr + dg + db) / 3 > this._motionThreshold].  A read past the end
    of a typed array is [undefined], the differences are then [NaN] and
    the comparison is false. *)
Definition pixelChanged (threshold : float) (curr prev : ImageData) (i : nat) : bool :=
  match nth_error curr i, nth_error prev i,
        nth_error curr (i + 1), nth_error prev (i + 1),
        nth_error curr (i + 2), nth_error prev (i + 2) with
  | Some cr, Some pr, Some cg, Some pg, Some cb, Some pb =>
      let dr := Z.abs (cr - pr) in
      let dg := Z.abs (cg - pg) in
      let db := Z.abs (cb - pb) in
      JsNumber.gt (JsNumber.ofZ (dr + dg + db) / 3) threshold
  | _, _, _, _, _, _ => false
  end.

(** Indices visited by [for (let i = 0; i < curr.length; i += 16)]. *)
Definition sampledIndices (len : nat) : list nat :=
  map (fun k => 16 * k) (seq 0 ((len + 15) / 16)).

(** [changedPixels] after the loop. *)
Definition changedPixels (threshold : float) (curr prev : ImageData) : nat :=
  List.length (filter (pixelChanged threshold curr prev) (sampledIndices (List.length curr))).

(** [hasMotion]: [changedPixels / (totalPixels / 4) > this._presenceThreshold]. *)
Definition hasMotion (c : t) (curr prev : ImageData) : bool :=
  let totalPixels := JsNumber.ofZ (w * h) in
  let motionRatio :=
    (JsNumber.ofNat (changedPixels (_motionThreshold c) curr prev) / (totalPixels / 4))%float in
  JsNumber.gt motionRatio (_presenceThreshold c).

Arguments hasMotion : simpl never.

(** The hysteresis step, once [hasMotion] is known: returns the result
    object. *)
Definition debounce (motion : bool) : method t PresenceSignal :=
  if motion then
    modify (set_exitFrameCount 0) ;;
    c <- get ;;
    if negb (_productPresent c) then
      modify (set_productPresent true) ;;
      ret {| present := true; justEntered := true; justLeft := false |}
    else
      ret {| present := true; justEntered := false; justLeft := false |}
  else
    c <- get ;;
    if _productPresent c then
      modify (set_exitFrameCount (S (_exitFrameCount c))) ;;
      c <- get ;;
      if _exitFrameRequired c <=? _exitFrameCount c then
        modify (set_productPresent false) ;;
        ret {| present := false; justEntered := false; justLeft := true |}
      else
        ret {| present := true; justEntered := false; justLeft := false |}
    else
      ret allFalse.

Definition detectProductPresence (v : Video) : method t PresenceSignal :=
  c <- get ;;
  if negb (isActive c) || (readyState v <? 2)%Z then
    ret allFalse
  else
    let currentFrame := frame v in
    result <- match _prevFrame c with
              | Some prev => debounce (hasMotion c currentFrame prev)
              | None => ret allFalse
              end ;;
    modify (set_prevFrame (Some currentFrame)) ;;
    ret result.

(** A host loop: one call per observed video state, results in call
    order. *)
Fixpoint detectAll (vs : list Video) : method t (list PresenceSignal) :=
  match vs with
  | [] => ret []
  | v :: rest =>
      r <- detectProductPresence v ;;
      rs <- detectAll rest ;;
      ret (r :: rs)
  end.

End CameraManager.

(** ** Plain objects used as maps

  [_getAggregatedResult] tallies into two object literals [{}].  Three
  rules of the language decide what it computes:

  - a property that the object does not own is looked up on
    [Object.prototype], so [o[k]] is not [undefined] when [k] names one
    of its members;
  - assigning to [__proto__] runs the inherited setter, which ignores a
    primitive value: no own property appears;
  - [Object.entries] lists own properties with array-index keys first,
    in ascending numeric order, then the other string keys in the order
    in which they were created. *)

Module JsObject.

(** The value of a property, as far as the tally can tell: a number, or
    anything else (a function or object found on the prototype, or the
    string that [+] builds from one).  The latter is truthy, stays of
    that kind under [+], and converts to [NaN]. *)
Inductive value (A : Type) : Type :=
| Num (a : A)
| NotNum.
Arguments Num {A} a.
Arguments NotNum {A}.

(** Own properties, in order of creation. *)
Definition t (A : Type) : Type := list (string * value A).

Definition empty {A : Type} : t A := [].

Fixpoint getOwn {A : Type} (o : t A) (k : string) : option (value A) :=
  match o with
  | [] => None
  | (k', v) :: rest => if String.eqb k k' then Some v else getOwn rest k
  end.

(** Property names of [Object.prototype] (ECMAScript, with Annex B). *)
Definition prototypeKeys : list string :=
  [ "constructor"; "hasOwnProperty"; "isPrototypeOf"; "propertyIsEnumerable";
    "toLocaleString"; "toString"; "valueOf"; "__proto__";
    "__defineGetter__"; "__defineSetter__"; "__lookupGetter__"; "__lookupSetter__" ].

Definition inherited (k : string) : bool := existsb (String.eqb k) prototypeKeys.

(** [o[k]]; [None] is [undefined]. *)
Definition get {A : Type} (o : t A) (k : string) : option (value A) :=
  match getOwn o k with
  | Some v => Some v
  | None => if inherited k then Some NotNum else None
  end.

Fixpoint setOwn {A : Type} (o : t A) (k : string) (v : value A) : t A :=
  match o with
  | [] => [(k, v)]
  | (k', v') :: rest =>
      if String.eqb k k' then (k', v) :: rest else (k', v') :: setOwn rest k v
  end.

(** [o[k] = v] for a primitive [v]. *)
Definition set {A : Type} (o : t A) (k : string) (v : value A) : t A :=
  if String.eqb k "__proto__" then o else setOwn o k v.

(** The array index a key denotes, if any: a decimal numeral without
    leading zero whose value is below 2^32 - 1. *)
Definition arrayIndex (k : string) : option N :=
  match NilEmpty.uint_of_string k with
  | Some d =>
      if Decimal.uint_beq (Decimal.unorm d) d && (N.of_uint d <? 2 ^ 32 - 1)%N
      then Some (N.of_uint d)
      else None
  | None => None
  end.

Fixpoint insertByIndex {A : Type} (n : N) (e : string * value A)
         (l : list (N * (string * value A))) : list (N * (string * value A)) :=
  match l with
  | [] => [(n, e)]
  | (m, e') :: rest =>
      if (n <? m)%N then (n, e) :: l else (m, e') :: insertByIndex n e rest
  end.

(** The array-index properties, in ascending order of index. *)
Fixpoint indexed {A : Type} (o : t A) : list (N * (string * value A)) :=
  match o with
  | [] => []
  | e :: rest =>
      match arrayIndex (fst e) with
      | Some n => insertByIndex n e (indexed rest)
      | None => indexed rest
      end
  end.

Definition named {A : Type} (o : t A) : t A :=
  filter (fun e => match arrayIndex (fst e) with Some _ => false | None => true end) o.

(** [Object.entries(o)]. *)
Definition entries {A : Type} (o : t A) : list (string * value A) :=
  map snd (indexed o) ++ named o.

End JsObject.

(** ** Inspector: inspection state machine and aggregation *)

(** What [DefectDetector.predict] resolves to when it is not [null]. *)
Module Prediction.
Record t := {
  label : string;
  confidences : list (string * float);
  confidence : float;
  isDefective : bool
}.
End Prediction.

(** The object built by [_getAggregatedResult] and by [manualInspect]. *)
Module Verdict.
Record t := {
  label : string;
  confidence : float;
  isDefective : bool;
  defectType : option string;
  status : string
}.

(** The object literal both methods return, for a given label and
    confidence. *)
Definition make (l : string) (c : float) : t :=
  {| label := l;
     confidence := c;
     isDefective := negb (String.eqb l "ok");
     defectType := if negb (String.eqb l "ok") then Some l else None;
     status := if String.eqb l "ok" then "ok" else "defective" |}.
End Verdict.

Module Inspector.

Import CameraManager.

(** [this.state]; the constructor's comment lists the three values. *)
Inductive State := idle | inspecting | complete.

Definition isInspecting (s : State) : bool :=
  match s with inspecting => true | _ => false end.

(** [this.currentInspection] when it is not [null]. *)
Record Inspection := {
  startTime : Z;
  predictions : list Prediction.t;
  thumbnail : option string
}.

Record Stats := {
  total : nat;
  ok : nat;
  defective : nat;
  defectRate : string;
  categories : list (string * nat)
}.

(** Fields of the [Inspector] object. *)
Record t := {
  state : State;
  currentInspection : option Inspection;
  stats : Stats;
  _predictionBuffer : list Prediction.t;
  _bufferSize : nat;
  _minConfidence : float
}.

(** The constructor. *)
Definition new : t :=
  {| state := idle;
     currentInspection := None;
     stats := {| total := 0; ok := 0; defective := 0; defectRate := "0.0"; categories := [] |};
     _predictionBuffer := [];
     _bufferSize := 8;
     _minConfidence := 0.4 |}.

Definition set_state (x : State) (s : t) : t :=
  {| state := x;
     currentInspection := currentInspection s;
     stats := stats s;
     _predictionBuffer := _predictionBuffer s;
     _bufferSize := _bufferSize s;
     _minConfidence := _minConfidence s |}.

Definition set_currentInspection (x : option Inspection) (s : t) : t :=
  {| state := state s;
     currentInspection := x;
     stats := stats s;
     _predictionBuffer := _predictionBuffer s;
     _bufferSize := _bufferSize s;
     _minConfidence := _minConfidence s |}.

Definition set_predictionBuffer (x : list Prediction.t) (s : t) : t :=
  {| state := state s;
     currentInspection := currentInspection s;
     stats := stats s;
     _predictionBuffer := x;
     _bufferSize := _bufferSize s;
     _minConfidence := _minConfidence s |}.

(** The object [processFrame] returns.  [finalResult] is a property only
    of the result of a completing call: [None] is its absence,
    [Some None] is [null]. *)
Record FrameOutcome := {
  stateChanged : bool;
  inspectionComplete : bool;
  currentResult : option Verdict.t;
  finalResult : option (option Verdict.t)
}.

(** *** Aggregation *)

(** [(votes[l] || 0) + 1]; a count is a small non-negative integer. *)
Definition countUp (v : option (JsObject.value nat)) : JsObject.value nat :=
  match v with
  | None => JsObject.Num (0 + 1)
  | Some (JsObject.Num n) => JsObject.Num ((if n =? 0 then 0 else n) + 1)
  | Some JsObject.NotNum => JsObject.NotNum
  end.

(** [(confidenceSums[l] || 0) + p.confidence]. *)
Definition sumUp (v : option (JsObject.value float)) (c : float) : JsObject.value float :=
  match v with
  | None => JsObject.Num (0 + c)%float
  | Some (JsObject.Num s) => JsObject.Num (JsNumber.orZero s + c)%float
  | Some JsObject.NotNum => JsObject.NotNum
  end.

(** The first loop: [votes] and [confidenceSums] after the buffer. *)
Definition tallyStep (acc : JsObject.t nat * JsObject.t float) (p : Prediction.t)
  : JsObject.t nat * JsObject.t float :=
  let (votes, confidenceSums) := acc in
  let l := Prediction.label p in
  (JsObject.set votes l (countUp (JsObject.get votes l)),
   JsObject.set confidenceSums l (sumUp (JsObject.get confidenceSums l) (Prediction.confidence p))).

Definition tally (buffer : list Prediction.t) : JsObject.t nat * JsObject.t float :=
  fold_left tallyStep buffer (JsObject.empty, JsObject.empty).

(** The second loop: [(bestLabel, bestVotes)].  [count > bestVotes] is
    false for a count that is not a number. *)
Definition bestStep (best : string * nat) (e : string * JsObject.value nat) : string * nat :=
  match snd e with
  | JsObject.Num count => if snd best <? count then (fst e, count) else best
  | JsObject.NotNum => best
  end.

Definition best (votes : JsObject.t nat) : string * nat :=
  fold_left bestStep (JsObject.entries votes) ("ok", 0).

(** [confidenceSums[bestLabel] / votes[bestLabel]]: an operand that is
    [undefined] or not a number converts to [NaN]. *)
Definition average (s : option (JsObject.value float)) (n : option (JsObject.value nat)) : float :=
  match s, n with
  | Some (JsObject.Num s), Some (JsObject.Num n) => (s / JsNumber.ofNat n)%float
  | _, _ => PrimFloat.nan
  end.

Definition aggregate (buffer : list Prediction.t) : option Verdict.t :=
  match buffer with
  | [] => None
  | _ =>
      let (votes, confidenceSums) := tally buffer in
      let bestLabel := fst (best votes) in
      let avgConfidence :=
        average (JsObject.get confidenceSums bestLabel) (JsObject.get votes bestLabel) in
      Some (Verdict.make bestLabel avgConfidence)
  end.

Arguments aggregate : simpl never.

Definition _getAggregatedResult : method t (option Verdict.t) :=
  s <- get ;;
  ret (aggregate (_predictionBuffer s)).

(** *** The state machine *)

Definition with_stateChanged (b : bool) (r : FrameOutcome) : FrameOutcome :=
  {| stateChanged := b;
     inspectionComplete := inspectionComplete r;
     currentResult := currentResult r;
     finalResult := finalResult r |}.

Definition with_inspectionComplete (b : bool) (r : FrameOutcome) : FrameOutcome :=
  {| stateChanged := stateChanged r;
     inspectionComplete := b;
     currentResult := currentResult r;
     finalResult := finalResult r |}.

Definition with_currentResult (v : option Verdict.t) (r : FrameOutcome) : FrameOutcome :=
  {| stateChanged := stateChanged r;
     inspectionComplete := inspectionComplete r;
     currentResult := v;
     finalResult := finalResult r |}.

Definition with_finalResult (v : option Verdict.t) (r : FrameOutcome) : FrameOutcome :=
  {| stateChanged := stateChanged r;
     inspectionComplete := inspectionComplete r;
     currentResult := currentResult r;
     finalResult := Some v |}.

(** [processFrame(prediction, presenceInfo)]; [now] is what [Date.now()]
    returns during the call. *)
Definition processFrame (now : Z) (prediction : option Prediction.t)
           (presenceInfo : PresenceSignal) : method t FrameOutcome :=
  let result :=
    {| stateChanged := false;
       inspectionComplete := false;
       currentResult := None;
       finalResult := None |} in
  (* Product just entered frame *)
  result <- (if justEntered presenceInfo then
               modify (set_state inspecting) ;;
               modify (set_currentInspection
                         (Some {| startTime := now; predictions := []; thumbnail := None |})) ;;
               modify (set_predictionBuffer []) ;;
               ret (with_stateChanged true result)
             else ret result) ;;
  (* During inspection: accumulate predictions *)
  s <- get ;;
  result <- match prediction with
            | Some p =>
                if isInspecting (state s) then
                  modify (set_predictionBuffer (_predictionBuffer s ++ [p])) ;;
                  s <- get ;;
                  (* Keep only last N predictions *)
                  (if _bufferSize s <? List.length (_predictionBuffer s)
                   then modify (set_predictionBuffer (tl (_predictionBuffer s))) ;; ret tt
                   else ret tt) ;;
                  current <- _getAggregatedResult ;;
                  ret (with_currentResult current result)
                else ret result
            | None => ret result
            end ;;
  (* Product just left frame: finalize *)
  s <- get ;;
  if justLeft presenceInfo && isInspecting (state s) then
    final <- _getAggregatedResult ;;
    modify (set_state idle) ;;
    modify (set_currentInspection None) ;;
    modify (set_predictionBuffer []) ;;
    ret (with_stateChanged true (with_finalResult final (with_inspectionComplete true result)))
  else
    ret result.

(** [manualInspect(prediction)]. *)
Definition manualInspect (prediction : option Prediction.t) : method t (option Verdict.t) :=
  match prediction with
  | None => ret None
  | Some p => ret (Some (Verdict.make (Prediction.label p) (Prediction.confidence p)))
  end.

(** One call of the host loop, and a run of calls. *)
Record Call := {
  now : Z;
  prediction : option Prediction.t;
  presenceInfo : PresenceSignal
}.

Fixpoint processAll (calls : list Call) : method t (list FrameOutcome) :=
  match calls with
  | [] => ret []
  | c :: rest =>
      r <- processFrame (now c) (prediction c) (presenceInfo c) ;;
      rs <- processAll rest ;;
      ret (r :: rs)
  end.

End Inspector.

(** ** The detection loop of the application *)

Module App.

(** The two singletons the loop drives. *)
Record t := {
  cameraManager : CameraManager.t;
  inspector : Inspector.t
}.

(** What one pass of the loop takes from outside: the video state, the
    clock, and what [detector.predict] resolved to ([null] when the model
    is not trained, no frame could be captured, or prediction failed). *)
Record Frame := {
  video : CameraManager.Video;
  clock : Z;
  predicted : option Prediction.t
}.

(** Steps 1 and 3 of [processFrame] in the application: presence is
    detected, then the prediction and the presence signal go through the
    inspector.  A pass runs to its end before the next one starts. *)
Definition processFrame (f : Frame) : method t (CameraManager.PresenceSignal * Inspector.FrameOutcome) :=
  a <- get ;;
  let (presence, cam) :=
    runState (CameraManager.detectProductPresence (video f)) (cameraManager a) in
  let (result, insp) :=
    runState (Inspector.processFrame (clock f) (predicted f) presence) (inspector a) in
  put {| cameraManager := cam; inspector := insp |} ;;
  ret (presence, result).

Fixpoint processFrames (fs : list Frame)
  : method t (list (CameraManager.PresenceSignal * Inspector.FrameOutcome)) :=
  match fs with
  | [] => ret []
  | f :: rest =>
      r <- processFrame f ;;
      rs <- processFrames rest ;;
      ret (r :: rs)
  end.

(** The application at start-up. *)
Definition new : t :=
  {| cameraManager := CameraManager.new; inspector := Inspector.new |}.

End App.

(** ** Inspection records, their store and the statistics *)

Set Warnings "-abstract-large-number".

Module StorageManager.

(** A string the code obtains by rendering a number: it is kept as the
    call that renders it. *)
Inductive Rendered :=
| Literal (s : string)
| ToFixed1 (x : float).

(** The statistics object: what [getInspectionStats] builds and
    [Inspector.stats] holds, with the category tally as the object
    literal it is. *)
Record Stats := {
  total : nat;
  ok : nat;
  defective : nat;
  defectRate : Rendered;
  categories : JsObject.t nat
}.

(** A record of the object store [inspections]. *)
Record InspectionRecord := {
  timestamp : Z;
  status : string;
  defectType : option string;
  confidence : float;
  duration : Z;
  thumbnail : option string
}.

(** The object store, in the order of its generated keys. *)
Definition t := list InspectionRecord.

(** [store.add(record)]: the record gets the next key. *)
Definition addInspection (record : InspectionRecord) (store : t) : t := store ++ [record].

Definition clearInspections (store : t) : t := [].

(** A cursor over the [timestamp] index in direction [prev]: descending
    timestamps, and for equal timestamps descending keys. *)
Fixpoint insertDescending (r : InspectionRecord) (l : list InspectionRecord)
  : list InspectionRecord :=
  match l with
  | [] => [r]
  | x :: rest =>
      if (timestamp x <=? timestamp r)%Z then r :: l else x :: insertDescending r rest
  end.

Definition byTimestampDescending (store : t) : list InspectionRecord :=
  fold_left (fun acc r => insertDescending r acc) store [].

Definition getInspections (limit : nat) (store : t) : list InspectionRecord :=
  firstn limit (byTimestampDescending store).

(** [x || 'unknown'] on a defect type: [null] and the empty string are
    falsy. *)
Definition orUnknown (d : option string) : string :=
  match d with
  | Some "" | None => "unknown"
  | Some l => l
  end.

(** [categories[cat] = (categories[cat] || 0) + 1]. *)
Definition countCategory (cats : JsObject.t nat) (cat : string) : JsObject.t nat :=
  JsObject.set cats cat (Inspector.countUp (JsObject.get cats cat)).

(** [total > 0 ? ((defective / total) * 100).toFixed(1) : '0.0']. *)
Definition rate (defective total : nat) : Rendered :=
  if 0 <? total
  then ToFixed1 ((JsNumber.ofNat defective / JsNumber.ofNat total) * 100)%float
  else Literal "0.0".

(** The loop of [getInspectionStats] over the inspections read. *)
Definition countInspection (acc : nat * nat * JsObject.t nat) (insp : InspectionRecord)
  : nat * nat * JsObject.t nat :=
  let '(ok, defective, cats) := acc in
  if String.eqb (status insp) "ok" then (ok + 1, defective, cats)
  else (ok, defective + 1, countCategory cats (orUnknown (defectType insp))).

Definition statsOf (inspections : list InspectionRecord) : Stats :=
  let '(ok, defective, cats) := fold_left countInspection inspections (0, 0, JsObject.empty) in
  {| total := List.length inspections;
     ok := ok;
     defective := defective;
     defectRate := rate defective (List.length inspections);
     categories := cats |}.

Definition getInspectionStats (store : t) : Stats := statsOf (getInspections 10000 store).

End StorageManager.

(** ** Inspector: saving inspections and keeping statistics *)

Module InspectorStats.

Import StorageManager.

(** What [saveInspection], [resetStats] and [init] read and write: of
    the inspector, [currentInspection] and the statistics object; and the
    object store behind [window.storageManager]. *)
Record t := {
  currentInspection : option Inspector.Inspection;
  stats : Stats;
  storage : StorageManager.t
}.

Definition zeroStats : Stats :=
  {| total := 0; ok := 0; defective := 0; defectRate := Literal "0.0";
     categories := JsObject.empty |}.

(** The statistics update of [saveInspection]. *)
Definition updateStats (result : Verdict.t) (st : Stats) : Stats :=
  let total := total st + 1 in
  let ok := if Verdict.isDefective result then ok st else ok st + 1 in
  let defective := if Verdict.isDefective result then defective st + 1 else defective st in
  let cats := if Verdict.isDefective result
              then countCategory (categories st) (orUnknown (Verdict.defectType result))
              else categories st in
  {| total := total; ok := ok; defective := defective;
     defectRate := rate defective total;
     categories := cats |}.

(** [saveInspection(result, thumbnail)].  [now1] and [now2] are the two
    readings of [Date.now()]; [accepted] tells whether the store takes
    the record.  When it does not, the awaited promise rejects and the
    method throws before it touches the statistics: [None]. *)
Definition saveInspection (now1 now2 : Z) (accepted : bool)
           (result : Verdict.t) (thumb : option string)
  : method t (option InspectionRecord) :=
  s <- get ;;
  let record :=
    {| timestamp := now1;
       status := Verdict.status result;
       defectType := Verdict.defectType result;
       confidence := Verdict.confidence result;
       duration := match currentInspection s with
                   | Some i => (now2 - Inspector.startTime i)%Z
                   | None => 0%Z
                   end;
       thumbnail := thumb |} in
  if accepted then
    put {| currentInspection := currentInspection s;
           stats := updateStats result (stats s);
           storage := addInspection record (storage s) |} ;;
    ret (Some record)
  else ret None.

(** [resetStats()].  The statistics are zeroed first; [cleared] tells
    whether the store then carries out the clearing.  When it does not,
    the awaited promise rejects and the method throws, the statistics
    already zeroed: [false]. *)
Definition resetStats (cleared : bool) : method t bool :=
  s <- get ;;
  put {| currentInspection := currentInspection s;
         stats := zeroStats;
         storage := if cleared then clearInspections (storage s) else storage s |} ;;
  ret cleared.

(** [init()]: the statistics are read back from the store. *)
Definition init : method t unit :=
  s <- get ;;
  put {| currentInspection := currentInspection s;
         stats := getInspectionStats (storage s);
         storage := storage s |}.

End InspectorStats.

(** ** DefectDetector: the list of categories *)

Module DefectDetector.

(** Of the detector, the array [categories]; of the settings store
    behind [window.storageManager], the value saved under the key
    [categories] ([None] while nothing was saved). *)
Record t := {
  categories : list string;
  savedCategories : option (list string)
}.

Definition defaultCategories : list string :=
  ["ok"; "scratch"; "crack"; "wrong_color"; "misalignment"].

(** [categories.includes(key)]. *)
Definition includes (l : list string) (key : string) : bool :=
  existsb (String.eqb key) l.

(** [saveSetting('categories', value)], not awaited by its callers:
    [stored] tells whether the store carries the write out.  The value is
    copied when the write is requested. *)
Definition saveSetting (stored : bool) (value : list string) : method t unit :=
  if stored
  then d <- get ;; put {| categories := categories d; savedCategories := Some value |}
  else ret tt.

Section Keys.

(** [name.toLowerCase().replace(/\s+/g, '_')]. *)
Variable toKey : string -> string.

(** [addCategory(name)]. *)
Definition addCategory (stored : bool) (name : string) : method t string :=
  let key := toKey name in
  d <- get ;;
  (if includes (categories d) key then ret tt
   else
     put {| categories := categories d ++ [key]; savedCategories := savedCategories d |} ;;
     saveSetting stored (categories d ++ [key])) ;;
  ret key.

End Keys.

(** [removeCategory(name)]. *)
Definition removeCategory (stored : bool) (name : string) : method t unit :=
  d <- get ;;
  let kept := filter (fun c => negb (String.eqb c name)) (categories d) in
  put {| categories := kept; savedCategories := savedCategories d |} ;;
  saveSetting stored kept.

(** The constructor, over the settings store as it is. *)
Definition constructed (saved : option (list string)) : t :=
  {| categories := defaultCategories; savedCategories := saved |}.

(** The part of [init] that loads the custom categories: a saved array,
    empty or not, replaces the list. *)
Definition loadCategories : method t unit :=
  d <- get ;;
  match savedCategories d with
  | Some savedCats => put {| categories := savedCats; savedCategories := savedCategories d |}
  | None => ret tt
  end.

End DefectDetector.

(** Running a method: sequencing threads the object through. *)
Lemma run_bind {S A B : Type} (m : state S A) (f : A -> state S B) (s : S) :
runState (bind m f) s = let (a, s') := runState m s in runState (f a) s'.
Proof. reflexivity. Qed.

Lemma run_ret {S A : Type} (a : A) (s : S) : runState (ret a) s = (a, s).
Proof. reflexivity. Qed.

(** * Properties of presence detection *)

Module PresenceProperties.

Import CameraManager.

(** A call that compares two frames and finds no motion: the camera is
    active, the video is ready, a previous frame is stored, and
    [hasMotion] is false. *)
Definition quietCall (c : t) (v : Video) : bool :=
  isActive c && negb (readyState v <? 2)%Z &&
  match _prevFrame c with
  | Some prev => negb (hasMotion c (frame v) prev)
  | None => false
  end.

(** A run of consecutive calls, each of them a [quietCall] in the state
    the previous one left. *)
Fixpoint quietRun (c : t) (vs : list Video) : bool :=
  match vs with
  | [] => true
  | v :: rest => quietCall c v && quietRun (snd (runState (detectProductPresence v) c)) rest
  end.

(** Every frame after the first equals its predecessor. *)
Fixpoint stillFrames (vs : list Video) : Prop :=
  match vs with
  | v1 :: ((v2 :: _) as rest) => frame v2 = frame v1 /\ stillFrames rest
  | _ => True
  end.

Definition result (v : Video) (c : t) : PresenceSignal := fst (runState (detectProductPresence v) c).
Definition after (v : Video) (c : t) : t := snd (runState (detectProductPresence v) c).
Definition results (vs : list Video) (c : t) : list PresenceSignal := fst (runState (detectAll vs) c).
Definition afterAll (vs : list Video) (c : t) : t := snd (runState (detectAll vs) c).

Lemma detectAll_results v vs c : results (v :: vs) c = result v c :: results vs (after v c).
Proof.
  unfold results, result, after. cbn [detectAll]. rewrite run_bind.
  destruct (runState (detectProductPresence v) c) as [r c']. rewrite run_bind.
  cbn [fst snd]. destruct (runState (detectAll vs) c') as [rs c'']. reflexivity.
Qed.

Lemma detectAll_after v vs c : afterAll (v :: vs) c = afterAll vs (after v c).
Proof.
  unfold afterAll, after. cbn [detectAll]. rewrite run_bind.
  destruct (runState (detectProductPresence v) c) as [r c']. rewrite run_bind.
  cbn [fst snd]. destruct (runState (detectAll vs) c') as [rs c'']. reflexivity.
Qed.

(** Runs one call that [Hq] says is quiet, in a state whose presence flag
    [Hp] gives: the guards of [detectProductPresence] are settled and the
    goal is left at the hysteresis step, on the fields of the state. *)
Ltac quiet_call c v Hq Hp :=
  unfold quietCall, result, after, detectProductPresence in *;
  destruct c as [act prev mt pt cnt req pres]; cbn in *; subst pres;
  destruct act; [|discriminate]; cbn in Hq |- *;
  destruct (readyState v <? 2)%Z; [discriminate|]; cbn in Hq |- *;
  destruct prev as [prev|]; [|discriminate];
  apply negb_true_iff in Hq; rewrite Hq; cbn.

(** One quiet call while present, below the debounce bound. *)
Lemma quiet_counting c v :
  quietCall c v = true -> _productPresent c = true ->
  S (_exitFrameCount c) < _exitFrameRequired c ->
  result v c = {| present := true; justEntered := false; justLeft := false |} /\
  _productPresent (after v c) = true /\
  _exitFrameCount (after v c) = S (_exitFrameCount c) /\
  _exitFrameRequired (after v c) = _exitFrameRequired c.
Proof.
  intros Hq Hp Hlt. quiet_call c v Hq Hp.
  destruct (Nat.leb_spec req (S cnt)); [lia|]. cbn. auto.
Qed.

(** The quiet call on which the counter reaches the bound. *)
Lemma quiet_leaving c v :
  quietCall c v = true -> _productPresent c = true ->
  _exitFrameRequired c <= S (_exitFrameCount c) ->
  result v c = {| present := false; justEntered := false; justLeft := true |} /\
  _productPresent (after v c) = false.
Proof.
  intros Hq Hp Hle. quiet_call c v Hq Hp.
  destruct (Nat.leb_spec req (S cnt)); [|lia]. cbn. auto.
Qed.

(** A quiet call while absent. *)
Lemma quiet_absent c v :
  quietCall c v = true -> _productPresent c = false ->
  result v c = allFalse /\ _productPresent (after v c) = false.
Proof.
  intros Hq Hp. quiet_call c v Hq Hp. auto.
Qed.

Lemma quietRun_absent vs : forall c,
  quietRun c vs = true -> _productPresent c = false ->
  Forall (eq allFalse) (results vs c) /\ _productPresent (afterAll vs c) = false.
Proof.
  induction vs as [|v vs IH]; intros c Hq Hp.
  - split; [constructor | exact Hp].
  - cbn in Hq. apply andb_true_iff in Hq as [Hv Hrest].
    destruct (quiet_absent c v Hv Hp) as [Hr Hp'].
    rewrite detectAll_results, detectAll_after.
    destruct (IH (after v c) Hrest Hp') as [IH1 IH2].
    split; [constructor; [symmetry; exact Hr | exact IH1] | exact IH2].
Qed.

(** The debounce, from a counter value [n] below the bound: the [k]-th
    call of the run (from 0) is the [(n + k + 1)]-th quiet frame. *)
Lemma quietRun_present vs : forall c,
  quietRun c vs = true -> _productPresent c = true ->
  _exitFrameCount c < _exitFrameRequired c ->
  forall k r, nth_error (results vs c) k = Some r ->
    justEntered r = false /\
    (_exitFrameCount c + S k < _exitFrameRequired c -> present r = true /\ justLeft r = false) /\
    (_exitFrameCount c + S k = _exitFrameRequired c -> present r = false /\ justLeft r = true) /\
    (_exitFrameRequired c < _exitFrameCount c + S k -> present r = false /\ justLeft r = false).
Proof.
  induction vs as [|v vs IH]; intros c Hq Hp Hlt k r Hk.
  - destruct k; discriminate.
  - cbn in Hq. apply andb_true_iff in Hq as [Hv Hrest].
    rewrite detectAll_results in Hk.
    destruct (Nat.lt_ge_cases (S (_exitFrameCount c)) (_exitFrameRequired c)) as [Hc|Hc].
    + destruct (quiet_counting c v Hv Hp Hc) as (Hr & Hp' & Hn' & Hq').
      destruct k as [|k]; cbn in Hk.
      * injection Hk as <-. rewrite Hr; cbn. repeat split; intros; lia || auto.
      * specialize (IH (after v c) Hrest Hp').
        rewrite Hn', Hq' in IH. specialize (IH Hc k r Hk).
        replace (_exitFrameCount c + S (S k)) with (S (_exitFrameCount c) + S k) by lia.
        exact IH.
    + destruct (quiet_leaving c v Hv Hp Hc) as (Hr & Hp').
      destruct k as [|k]; cbn in Hk.
      * injection Hk as <-. rewrite Hr; cbn. repeat split; intros; lia || auto.
      * destruct (quietRun_absent vs (after v c) Hrest Hp') as [Hall _].
        rewrite Forall_forall in Hall.
        apply nth_error_In in Hk. apply Hall in Hk. subst r. cbn.
        repeat split; intros; lia || auto.
Qed.

Lemma quietRun_present_state vs : forall c,
  quietRun c vs = true -> _productPresent c = true ->
  _exitFrameCount c < _exitFrameRequired c ->
  _productPresent (afterAll vs c) =
    (_exitFrameCount c + List.length vs <? _exitFrameRequired c).
Proof.
  induction vs as [|v vs IH]; intros c Hq Hp Hlt.
  - unfold afterAll. cbn [detectAll List.length]. rewrite run_ret. cbn [snd].
    rewrite Nat.add_0_r. apply Nat.ltb_lt in Hlt. rewrite Hlt. exact Hp.
  - cbn in Hq. apply andb_true_iff in Hq as [Hv Hrest].
    rewrite detectAll_after.
    destruct (Nat.lt_ge_cases (S (_exitFrameCount c)) (_exitFrameRequired c)) as [Hc|Hc].
    + destruct (quiet_counting c v Hv Hp Hc) as (Hr & Hp' & Hn' & Hq').
      rewrite (IH (after v c) Hrest Hp') by (rewrite Hn', Hq'; exact Hc).
      rewrite Hn', Hq'. cbn [List.length]. f_equal. lia.
    + destruct (quiet_leaving c v Hv Hp Hc) as (Hr & Hp').
      destruct (quietRun_absent vs (after v c) Hrest Hp') as [_ Hfin].
      rewrite Hfin. symmetry. apply Nat.ltb_ge. cbn [List.length]. lia.
Qed.

(** Comparing a frame with itself, under the constructor's thresholds:
    no sampled pixel changes, so there is no motion. *)
Lemma pixelChanged_same f i : pixelChanged 25 f f i = false.
Proof.
  unfold pixelChanged.
  destruct (nth_error f i) as [r|]; [|reflexivity].
  destruct (nth_error f (i + 1)) as [g|]; [|reflexivity].
  destruct (nth_error f (i + 2)) as [b|]; [|reflexivity].
  rewrite !Z.sub_diag. reflexivity.
Qed.

Lemma changedPixels_same f : changedPixels 25 f f = 0.
Proof.
  unfold changedPixels.
  induction (sampledIndices (List.length f)) as [|i l IH]; [reflexivity|].
  cbn [filter]. rewrite pixelChanged_same. exact IH.
Qed.

Lemma hasMotion_same c f :
  _motionThreshold c = 25%float -> _presenceThreshold c = 0.02%float ->
  hasMotion c f f = false.
Proof.
  intros Hm Hp. unfold hasMotion. rewrite Hm, Hp, changedPixels_same. reflexivity.
Qed.

(** The states a motionless scene showing [f] keeps the detector in. *)
Definition calm (f : ImageData) (c : t) : Prop :=
  _productPresent c = false /\
  _motionThreshold c = 25%float /\ _presenceThreshold c = 0.02%float /\
  (_prevFrame c = None \/ _prevFrame c = Some f).

Lemma calm_step v c :
  calm (frame v) c -> result v c = allFalse /\ calm (frame v) (after v c).
Proof.
  intros (Hp & Hm & Ht & Hf).
  assert (Hsame := hasMotion_same c (frame v) Hm Ht).
  unfold calm, result, after, detectProductPresence.
  destruct c as [act prev mt pt cnt req pres]; cbn in *. subst pres mt pt.
  destruct (negb act || (readyState v <? 2)%Z); cbn.
  - intuition auto.
  - destruct Hf as [-> | ->]; cbn.
    + intuition auto.
    + rewrite Hsame. cbn. intuition auto.
Qed.

Lemma calm_run vs : forall c,
  stillFrames vs ->
  match vs with v :: _ => calm (frame v) c | [] => True end ->
  Forall (eq allFalse) (results vs c).
Proof.
  induction vs as [|v vs IH]; intros c Hs Hc.
  - constructor.
  - rewrite detectAll_results. destruct (calm_step v c Hc) as [Hr Hc'].
    constructor; [symmetry; exact Hr|].
    apply IH.
    + destruct vs; [exact I | exact (proj2 Hs)].
    + destruct vs as [|v2 vs]; [exact I|].
      destruct Hs as [Heq _]. rewrite Heq. exact Hc'.
Qed.

Lemma calm_new f : calm f new /\ calm f (started new).
Proof. unfold calm; cbn; auto 10. Qed.

(** A well-formed presence state for the examples: an 8-pixel frame is
    stored, the camera is active and a product is present. *)
Definition sampleFrame : ImageData := repeat 128%Z 32.

Definition sampleVideo : Video := {| readyState := 4; frame := sampleFrame |}.

Definition presentCamera : t :=
  set_productPresent true (set_prevFrame (Some sampleFrame) (started new)).

(** C4. While a product is present and the exit counter is 0, a run of
    consecutive no-motion calls keeps [present] true and [justLeft] false
    for the first [_exitFrameRequired - 1] calls; call number
    [_exitFrameRequired] returns [justLeft] with [present] false; every
    later call of the run returns [justLeft] false and [present] false.
    After the run the product is still marked present exactly when the
    run was shorter than [_exitFrameRequired]. *)
Theorem exit_debounce (c : t) (vs : list Video) :
  _productPresent c = true -> _exitFrameCount c = 0 -> 0 < _exitFrameRequired c ->
  quietRun c vs = true ->
  (forall k r, nth_error (results vs c) k = Some r ->
     justEntered r = false /\
     (S k < _exitFrameRequired c -> present r = true /\ justLeft r = false) /\
     (S k = _exitFrameRequired c -> present r = false /\ justLeft r = true) /\
     (_exitFrameRequired c < S k -> present r = false /\ justLeft r = false)) /\
  _productPresent (afterAll vs c) = (List.length vs <? _exitFrameRequired c).
Proof.
  intros Hp H0 Hreq Hq. split.
  - intros k r Hk.
    assert (Hlt : _exitFrameCount c < _exitFrameRequired c) by lia.
    pose proof (quietRun_present vs c Hq Hp Hlt k r Hk) as H.
    rewrite H0 in H. exact H.
  - rewrite (quietRun_present_state vs c Hq Hp) by lia.
    rewrite H0. reflexivity.
Qed.

Lemma exit_debounce_witness :
  (forall k r, nth_error (results (repeat sampleVideo 17) presentCamera) k = Some r ->
     justEntered r = false /\
     (S k < 15 -> present r = true /\ justLeft r = false) /\
     (S k = 15 -> present r = false /\ justLeft r = true) /\
     (15 < S k -> present r = false /\ justLeft r = false)) /\
  _productPresent (afterAll (repeat sampleVideo 17) presentCamera) = false.
Proof.
  apply (exit_debounce presentCamera (repeat sampleVideo 17)).
  - reflexivity.
  - reflexivity.
  - cbn. lia.
  - vm_compute. reflexivity.
Defined.

(** C5. On a freshly created detector (started or not) fed a sequence
    of frames in which each frame equals its predecessor, every call
    returns [{present: false, justEntered: false, justLeft: false}]; and
    a call made while no previous frame is stored returns that same
    all-false signal whatever the frame. *)
Theorem still_scene_is_silent (vs : list Video) :
  stillFrames vs ->
  Forall (eq allFalse) (results vs new) /\
  Forall (eq allFalse) (results vs (started new)) /\
  (forall v c, _prevFrame c = None -> result v c = allFalse).
Proof.
  intros Hs. repeat split.
  - apply calm_run; [exact Hs|]. destruct vs; [exact I | apply calm_new].
  - apply calm_run; [exact Hs|]. destruct vs; [exact I | apply calm_new].
  - intros v c Hnone. unfold result, detectProductPresence.
    destruct c as [act prev mt pt cnt req pres]; cbn in *. subst prev.
    destruct (negb act || (readyState v <? 2)%Z); reflexivity.
Qed.

Lemma still_scene_is_silent_witness :
  Forall (eq allFalse) (results (repeat sampleVideo 3) new) /\
  Forall (eq allFalse) (results (repeat sampleVideo 3) (started new)) /\
  (forall v c, _prevFrame c = None -> result v c = allFalse).
Proof.
  apply (still_scene_is_silent (repeat sampleVideo 3)).
  cbn. auto.
Defined.

(** Motion is detected once more than 2% of the 4800 sample slots change:
    a frame of 100 sampled pixels turning from black to white raises
    [justEntered], and the same frames with 96 sampled pixels do not. *)
Example entry_on_motion :
  let black n := {| readyState := 4; frame := repeat 0%Z n |} in
  let white n := {| readyState := 4; frame := repeat 255%Z n |} in
  results [black 1600; white 1600] (started new) =
    [allFalse; {| present := true; justEntered := true; justLeft := false |}] /\
  results [black 1536; white 1536] (started new) = [allFalse; allFalse].
Proof. vm_compute. split; reflexivity. Qed.

(** C9. No call returns [justEntered] and [justLeft] both true. *)
Theorem edges_exclusive (c : t) (v : Video) :
  justEntered (result v c) && justLeft (result v c) = false.
Proof.
  unfold result, detectProductPresence, debounce.
  destruct c as [act prev mt pt cnt req pres]; cbn.
  destruct (negb act || (readyState v <? 2)%Z); cbn; [reflexivity|].
  destruct prev as [prev|]; cbn; [|reflexivity].
  destruct (hasMotion _ _ _); cbn.
  - destruct pres; reflexivity.
  - destruct pres; cbn; [|reflexivity].
    destruct (req <=? S cnt); reflexivity.
Qed.

End PresenceProperties.

(** * Properties of the inspection state machine *)

Module InspectorProperties.

Import CameraManager Inspector.

Definition outcome (c : Call) (s : t) : FrameOutcome :=
  fst (runState (processFrame (now c) (prediction c) (presenceInfo c)) s).
Definition after (c : Call) (s : t) : t :=
  snd (runState (processFrame (now c) (prediction c) (presenceInfo c)) s).
Definition outcomes (calls : list Call) (s : t) : list FrameOutcome :=
  fst (runState (processAll calls) s).
Definition afterAll (calls : list Call) (s : t) : t :=
  snd (runState (processAll calls) s).

Lemma outcomes_cons c calls s :
  outcomes (c :: calls) s = outcome c s :: outcomes calls (after c s).
Proof.
  unfold outcomes, outcome, after. cbn [processAll]. rewrite run_bind.
  destruct (runState (processFrame (now c) (prediction c) (presenceInfo c)) s) as [r s'].
  rewrite run_bind. cbn [fst snd].
  destruct (runState (processAll calls) s') as [rs s'']. reflexivity.
Qed.

Lemma afterAll_cons c calls s : afterAll (c :: calls) s = afterAll calls (after c s).
Proof.
  unfold afterAll, after. cbn [processAll]. rewrite run_bind.
  destruct (runState (processFrame (now c) (prediction c) (presenceInfo c)) s) as [r s'].
  rewrite run_bind. cbn [fst snd].
  destruct (runState (processAll calls) s') as [rs s'']. reflexivity.
Qed.

Lemma outcomes_nil s : outcomes [] s = [].
Proof. reflexivity. Qed.

Lemma afterAll_nil s : afterAll [] s = s.
Proof. reflexivity. Qed.

(** The buffer after [push] and the conditional [shift]. *)
Definition pushed (s : t) (p : Prediction.t) : list Prediction.t :=
  let b := _predictionBuffer s ++ [p] in
  if _bufferSize s <? List.length b then tl b else b.

(** The result object when nothing happens. *)
Definition nothing : FrameOutcome :=
  {| stateChanged := false;
     inspectionComplete := false;
     currentResult := None;
     finalResult := None |}.

(** The entry edge, with no sample and no exit edge. *)
Lemma entry_call n pi s :
  justEntered pi = true -> justLeft pi = false ->
  runState (processFrame n None pi) s =
    (with_stateChanged true nothing,
     set_predictionBuffer []
       (set_currentInspection
          (Some {| startTime := n; predictions := []; thumbnail := None |})
          (set_state inspecting s))).
Proof.
  intros He Hl. unfold processFrame. rewrite He, Hl.
  destruct s as [st ci sts buf size mc]. reflexivity.
Qed.

(** A sample while inspecting, with no edge. *)
Lemma sample_call n p pi s :
  state s = inspecting -> justEntered pi = false -> justLeft pi = false ->
  runState (processFrame n (Some p) pi) s =
    (with_currentResult (aggregate (pushed s p)) nothing,
     set_predictionBuffer (pushed s p) s).
Proof.
  intros Hs He Hl. unfold processFrame, pushed. rewrite He, Hl.
  destruct s as [st ci sts buf size mc]. cbn in Hs. subst st.
  cbn -[Nat.ltb].
  destruct (size <? List.length (buf ++ [p])); reflexivity.
Qed.

(** The exit edge while inspecting, with no sample and no entry edge. *)
Lemma exit_call n pi s :
  state s = inspecting -> justEntered pi = false -> justLeft pi = true ->
  runState (processFrame n None pi) s =
    (with_stateChanged true
       (with_finalResult (aggregate (_predictionBuffer s))
          (with_inspectionComplete true nothing)),
     set_predictionBuffer [] (set_currentInspection None (set_state idle s))).
Proof.
  intros Hs He Hl. unfold processFrame. rewrite He, Hl.
  destruct s as [st ci sts buf size mc]. cbn in Hs. subst st. reflexivity.
Qed.

(** Aggregation over the buffer of any inspector state. *)
Lemma aggregate_cons p buf : exists v, aggregate (p :: buf) = Some v.
Proof.
  unfold aggregate. destruct (tally (p :: buf)) as [votes sums]. eexists; reflexivity.
Qed.

Definition isEntry (pi : PresenceSignal) : Prop := justEntered pi = true /\ justLeft pi = false.
Definition isQuiet (pi : PresenceSignal) : Prop := justEntered pi = false /\ justLeft pi = false.
Definition isExit (pi : PresenceSignal) : Prop := justEntered pi = false /\ justLeft pi = true.

(** The five calls of one inspection of three samples. *)
Definition cycle (t0 t1 t2 t3 t4 : Z) (e n1 n2 n3 l : PresenceSignal)
           (p1 p2 p3 : Prediction.t) : list Call :=
  [ {| now := t0; prediction := None; presenceInfo := e |};
    {| now := t1; prediction := Some p1; presenceInfo := n1 |};
    {| now := t2; prediction := Some p2; presenceInfo := n2 |};
    {| now := t3; prediction := Some p3; presenceInfo := n3 |};
    {| now := t4; prediction := None; presenceInfo := l |} ].

Lemma pushed_room s p :
  List.length (_predictionBuffer s) < _bufferSize s ->
  pushed s p = _predictionBuffer s ++ [p].
Proof.
  intros H. unfold pushed. cbv zeta. rewrite length_app. cbn [List.length].
  destruct (Nat.ltb_spec (_bufferSize s) (List.length (_predictionBuffer s) + 1)); [lia|reflexivity].
Qed.

Lemma outcome_eq n p pi s r s' :
  runState (processFrame n p pi) s = (r, s') ->
  outcome {| now := n; prediction := p; presenceInfo := pi |} s = r /\
  after {| now := n; prediction := p; presenceInfo := pi |} s = s'.
Proof. unfold outcome, after. cbn [now prediction presenceInfo]. intros ->. split; reflexivity. Qed.

(** Examples of inputs. *)
Definition sample (l : string) (c : float) : Prediction.t :=
  {| Prediction.label := l;
     Prediction.confidences := [(l, c)];
     Prediction.confidence := c;
     Prediction.isDefective := negb (String.eqb l "ok") |}.

Definition entering : PresenceSignal := {| present := true; justEntered := true; justLeft := false |}.
Definition staying : PresenceSignal := {| present := true; justEntered := false; justLeft := false |}.
Definition leaving : PresenceSignal := {| present := false; justEntered := false; justLeft := true |}.

Definition sampleCycle : list Call :=
  cycle 0 33 66 99 132 entering staying staying staying leaving
        (sample "ok" 0.9) (sample "scratch" 0.8) (sample "scratch" 0.7).

(** C1, as stated, fails: [stateChanged] is true on the entry call and
    again on the exit call, not exactly once. *)
Lemma cycle_stateChanged_not_once :
  map stateChanged (outcomes sampleCycle new) <> [true; false; false; false; false].
Proof. vm_compute. discriminate. Qed.

(** C1 (amended). From state [idle] with an empty buffer of capacity at
    least 3, the five calls entry / sample / sample / sample / exit give:
    [stateChanged] true on the entry call and on the exit call and false
    on the three sample calls; a non-null [currentResult] on each sample
    call, the aggregate of the samples so far; on the exit call
    [inspectionComplete] true and a non-null [finalResult], the aggregate
    of the three samples; afterwards the state is [idle], the buffer is
    empty and there is no current inspection. *)
Theorem inspection_cycle (s : t) (t0 t1 t2 t3 t4 : Z) (e n1 n2 n3 l : PresenceSignal)
        (p1 p2 p3 : Prediction.t) :
  state s = idle -> _predictionBuffer s = [] -> 3 <= _bufferSize s ->
  isEntry e -> isQuiet n1 -> isQuiet n2 -> isQuiet n3 -> isExit l ->
  let calls := cycle t0 t1 t2 t3 t4 e n1 n2 n3 l p1 p2 p3 in
  exists v1 v2 v3,
    aggregate [p1] = Some v1 /\
    aggregate [p1; p2] = Some v2 /\
    aggregate [p1; p2; p3] = Some v3 /\
    outcomes calls s =
      [ {| stateChanged := true; inspectionComplete := false;
           currentResult := None; finalResult := None |};
        {| stateChanged := false; inspectionComplete := false;
           currentResult := Some v1; finalResult := None |};
        {| stateChanged := false; inspectionComplete := false;
           currentResult := Some v2; finalResult := None |};
        {| stateChanged := false; inspectionComplete := false;
           currentResult := Some v3; finalResult := None |};
        {| stateChanged := true; inspectionComplete := true;
           currentResult := None; finalResult := Some (Some v3) |} ] /\
    state (afterAll calls s) = idle /\
    _predictionBuffer (afterAll calls s) = [] /\
    currentInspection (afterAll calls s) = None.
Proof.
  intros Hs Hb Hsize [He1 He2] [Ha1 Ha2] [Hb1 Hb2] [Hc1 Hc2] [Hl1 Hl2] calls.
  destruct (aggregate_cons p1 []) as [v1 Hv1].
  destruct (aggregate_cons p1 [p2]) as [v2 Hv2].
  destruct (aggregate_cons p1 [p2; p3]) as [v3 Hv3].
  exists v1, v2, v3. rewrite Hv1, Hv2, Hv3.
  split; [reflexivity|]. split; [reflexivity|]. split; [reflexivity|].
  subst calls. unfold cycle.
  rewrite !outcomes_cons, !afterAll_cons, outcomes_nil, afterAll_nil.
  (* entry *)
  destruct (outcome_eq _ _ _ _ _ _ (entry_call t0 e s He1 He2)) as [-> ->].
  set (s1 := set_predictionBuffer [] _).
  assert (Hs1 : state s1 = inspecting) by reflexivity.
  assert (Hz1 : _bufferSize s1 = _bufferSize s) by reflexivity.
  (* first sample *)
  destruct (outcome_eq _ _ _ _ _ _
              (sample_call t1 p1 n1 s1 Hs1 Ha1 Ha2)) as [-> ->].
  rewrite (pushed_room s1 p1) by (rewrite Hz1; cbn; lia).
  cbn [_predictionBuffer s1 set_predictionBuffer app].
  set (s2 := set_predictionBuffer [p1] s1).
  assert (Hs2 : state s2 = inspecting) by reflexivity.
  assert (Hz2 : _bufferSize s2 = _bufferSize s) by reflexivity.
  (* second sample *)
  destruct (outcome_eq _ _ _ _ _ _
              (sample_call t2 p2 n2 s2 Hs2 Hb1 Hb2)) as [-> ->].
  rewrite (pushed_room s2 p2) by (rewrite Hz2; cbn; lia).
  cbn [_predictionBuffer s2 set_predictionBuffer app].
  set (s3 := set_predictionBuffer [p1; p2] s2).
  assert (Hs3 : state s3 = inspecting) by reflexivity.
  assert (Hz3 : _bufferSize s3 = _bufferSize s) by reflexivity.
  (* third sample *)
  destruct (outcome_eq _ _ _ _ _ _
              (sample_call t3 p3 n3 s3 Hs3 Hc1 Hc2)) as [-> ->].
  rewrite (pushed_room s3 p3) by (rewrite Hz3; cbn; lia).
  cbn [_predictionBuffer s3 set_predictionBuffer app].
  set (s4 := set_predictionBuffer [p1; p2; p3] s3).
  assert (Hs4 : state s4 = inspecting) by reflexivity.
  (* exit *)
  destruct (outcome_eq _ _ _ _ _ _ (exit_call t4 l s4 Hs4 Hl1 Hl2)) as [-> ->].
  cbn [_predictionBuffer s4 set_predictionBuffer].
  rewrite Hv1, Hv2, Hv3.
  repeat split; reflexivity.
Qed.

Lemma inspection_cycle_witness :
  exists v1 v2 v3,
    aggregate [sample "ok" 0.9] = Some v1 /\
    aggregate [sample "ok" 0.9; sample "scratch" 0.8] = Some v2 /\
    aggregate [sample "ok" 0.9; sample "scratch" 0.8; sample "scratch" 0.7] = Some v3 /\
    outcomes sampleCycle new =
      [ {| stateChanged := true; inspectionComplete := false;
           currentResult := None; finalResult := None |};
        {| stateChanged := false; inspectionComplete := false;
           currentResult := Some v1; finalResult := None |};
        {| stateChanged := false; inspectionComplete := false;
           currentResult := Some v2; finalResult := None |};
        {| stateChanged := false; inspectionComplete := false;
           currentResult := Some v3; finalResult := None |};
        {| stateChanged := true; inspectionComplete := true;
           currentResult := None; finalResult := Some (Some v3) |} ] /\
    state (afterAll sampleCycle new) = idle /\
    _predictionBuffer (afterAll sampleCycle new) = [] /\
    currentInspection (afterAll sampleCycle new) = None.
Proof.
  apply (inspection_cycle new 0 33 66 99 132 entering staying staying staying leaving
           (sample "ok" 0.9) (sample "scratch" 0.8) (sample "scratch" 0.7)).
  - reflexivity.
  - reflexivity.
  - cbn. lia.
  - split; reflexivity.
  - split; reflexivity.
  - split; reflexivity.
  - split; reflexivity.
  - split; reflexivity.
Defined.

(** An inspection in progress, with one sample buffered. *)
Definition busy : t :=
  set_predictionBuffer [sample "scratch" 0.8]
    (set_currentInspection
       (Some {| startTime := 0; predictions := []; thumbnail := None |})
       (set_state inspecting new)).

(** C2, as stated, fails: an entry edge received in state [inspecting]
    empties the buffer and reports [stateChanged]. *)
Lemma reentry_is_not_ignored :
  let r := runState (processFrame 33 None entering) busy in
  ~ (state (snd r) = state busy /\
     _predictionBuffer (snd r) = _predictionBuffer busy /\
     stateChanged (fst r) = false).
Proof. vm_compute. intros (_ & _ & H). discriminate H. Qed.

(** C2 (amended). A call without entry edge that is made outside state
    [inspecting], or in state [inspecting] with neither a sample nor an
    exit edge, leaves every field of the inspector unchanged and returns
    [stateChanged] false, [inspectionComplete] false and a null
    [currentResult].  A call with an entry edge (and no exit edge) is a
    transition in every state, [inspecting] included: it reports
    [stateChanged], the state is [inspecting] afterwards and the buffer
    holds nothing but the sample of that call. *)
Theorem no_transition_no_change (n : Z) (p : option Prediction.t)
        (pi : PresenceSignal) (s : t) :
  (justEntered pi = false ->
   (state s = inspecting -> p = None /\ justLeft pi = false) ->
   runState (processFrame n p pi) s = (nothing, s)) /\
  (justEntered pi = true -> justLeft pi = false ->
   let r := runState (processFrame n p pi) s in
   stateChanged (fst r) = true /\
   state (snd r) = inspecting /\
   _predictionBuffer (snd r) =
     match p with
     | Some x => if _bufferSize s =? 0 then [] else [x]
     | None => []
     end).
Proof.
  split.
  - intros He Hno. unfold processFrame. rewrite He.
    destruct s as [st ci sts buf size mc]. cbn in Hno.
    destruct st.
    + destruct p; cbn; rewrite andb_false_r; reflexivity.
    + destruct Hno as [-> ->]; reflexivity.
    + destruct p; cbn; rewrite andb_false_r; reflexivity.
  - intros He Hl. unfold processFrame. rewrite He, Hl.
    destruct s as [st ci sts buf size mc].
    destruct p as [x|]; cbn.
    + destruct size; cbn; auto.
    + auto.
Qed.

Lemma no_transition_no_change_witness :
  runState (processFrame 33 None staying) busy = (nothing, busy) /\
  (let r := runState (processFrame 33 (Some (sample "ok" 0.9)) entering) busy in
   stateChanged (fst r) = true /\
   state (snd r) = inspecting /\
   _predictionBuffer (snd r) = [sample "ok" 0.9]).
Proof.
  split.
  - apply (proj1 (no_transition_no_change 33 None staying busy)).
    + reflexivity.
    + intros _. split; reflexivity.
  - apply (proj2 (no_transition_no_change 33 (Some (sample "ok" 0.9)) entering busy)).
    + reflexivity.
    + reflexivity.
Defined.

(** C6. With an empty prediction buffer, [_getAggregatedResult] returns
    [null] in every state of the inspector and leaves the inspector
    unchanged.  The method is a total function: it has no error path. *)
Theorem empty_buffer_no_verdict (s : t) :
  _predictionBuffer s = [] -> runState _getAggregatedResult s = (None, s).
Proof.
  intros H. unfold _getAggregatedResult. cbn. rewrite H. reflexivity.
Qed.

Lemma empty_buffer_no_verdict_witness :
  runState _getAggregatedResult new = (None, new).
Proof. apply (empty_buffer_no_verdict new). reflexivity. Defined.

(** C8. For a non-null sample, [manualInspect] returns the verdict built
    from that sample alone and leaves every field of the inspector
    unchanged, in every state. *)
Theorem manualInspect_pure (p : Prediction.t) (s : t) :
  runState (manualInspect (Some p)) s =
    (Some {| Verdict.label := Prediction.label p;
             Verdict.confidence := Prediction.confidence p;
             Verdict.isDefective := negb (String.eqb (Prediction.label p) "ok");
             Verdict.defectType :=
               if String.eqb (Prediction.label p) "ok" then None
               else Some (Prediction.label p);
             Verdict.status :=
               if String.eqb (Prediction.label p) "ok" then "ok" else "defective" |},
     s).
Proof.
  unfold manualInspect, Verdict.make. cbn.
  destruct (String.eqb (Prediction.label p) "ok"); reflexivity.
Qed.

(** The last [n] elements of a list. *)
Definition lastn {A : Type} (n : nat) (l : list A) : list A :=
  skipn (List.length l - n) l.

(** The samples a run of calls carries. *)
Definition samplesOf (calls : list Call) : list Prediction.t :=
  flat_map (fun c => match prediction c with Some p => [p] | None => [] end) calls.

Definition noEdge (c : Call) : Prop := isQuiet (presenceInfo c).

Definition bounded (s : t) : Prop := List.length (_predictionBuffer s) <= _bufferSize s.

Lemma pushed_lastn s p :
  bounded s -> pushed s p = lastn (_bufferSize s) (_predictionBuffer s ++ [p]).
Proof.
  unfold bounded, pushed, lastn. cbv zeta. intros H.
  rewrite length_app. cbn [List.length].
  destruct (Nat.ltb_spec (_bufferSize s) (List.length (_predictionBuffer s) + 1)).
  - replace (List.length (_predictionBuffer s) + 1 - _bufferSize s) with 1 by lia.
    reflexivity.
  - replace (List.length (_predictionBuffer s) + 1 - _bufferSize s) with 0 by lia.
    reflexivity.
Qed.

Lemma lastn_all {A : Type} n (l : list A) : List.length l <= n -> lastn n l = l.
Proof. unfold lastn. intros H. replace (List.length l - n) with 0 by lia. reflexivity. Qed.

Lemma lastn_app_l {A : Type} n (l l' : list A) :
  lastn n (lastn n l ++ l') = lastn n (l ++ l').
Proof.
  destruct (Nat.le_gt_cases (List.length l) n) as [Hle|Hgt].
  - rewrite (lastn_all n l Hle). reflexivity.
  - unfold lastn. rewrite !length_app, length_skipn, !skipn_app, skipn_skipn, length_skipn.
    f_equal; f_equal; lia.
Qed.

(** One call preserves the bound and the capacity. *)
Lemma bounded_step c s :
  bounded s -> bounded (after c s) /\ _bufferSize (after c s) = _bufferSize s.
Proof.
  unfold bounded, after, processFrame.
  destruct s as [st ci sts buf size mc]. cbn -[Nat.ltb].
  intros Hb.
  destruct (justEntered (presenceInfo c)); cbn -[Nat.ltb].
  - destruct (prediction c) as [p|]; cbn -[Nat.ltb].
    + destruct (Nat.ltb_spec size 1); cbn -[Nat.ltb];
        destruct (justLeft (presenceInfo c)); cbn; split; lia || reflexivity.
    + destruct (justLeft (presenceInfo c)); cbn; split; lia || reflexivity.
  - destruct (prediction c) as [p|]; cbn -[Nat.ltb].
    + destruct st; cbn -[Nat.ltb].
      * rewrite andb_false_r. cbn. split; lia || reflexivity.
      * destruct (Nat.ltb_spec size (List.length (buf ++ [p]))); cbn -[Nat.ltb];
          destruct (justLeft (presenceInfo c)); cbn; split;
          try reflexivity; try lia.
        -- rewrite length_app in *. cbn in *.
           destruct buf; cbn in *; [lia|]. rewrite length_app. cbn. lia.
      * rewrite andb_false_r. cbn. split; lia || reflexivity.
    + destruct (justLeft (presenceInfo c) && isInspecting st); cbn; split; lia || reflexivity.
Qed.

Lemma bounded_run calls : forall s,
  bounded s -> bounded (afterAll calls s) /\ _bufferSize (afterAll calls s) = _bufferSize s.
Proof.
  induction calls as [|c calls IH]; intros s Hb.
  - rewrite afterAll_nil. auto.
  - rewrite afterAll_cons. destruct (bounded_step c s Hb) as [Hb' Hz].
    destruct (IH (after c s) Hb') as [IH1 IH2]. split; [exact IH1 | congruence].
Qed.

(** A call with no edge while inspecting: the sample, if any, is pushed. *)
Lemma noEdge_step c s :
  state s = inspecting -> noEdge c ->
  after c s = match prediction c with
              | Some p => set_predictionBuffer (pushed s p) s
              | None => s
              end.
Proof.
  intros Hs [He Hl]. unfold after.
  destruct (prediction c) as [p|].
  - rewrite (sample_call (now c) p (presenceInfo c) s Hs He Hl). reflexivity.
  - unfold processFrame. rewrite He, Hl.
    destruct s as [st ci sts buf size mc]. reflexivity.
Qed.

Lemma fifo_run calls : forall s,
  bounded s -> state s = inspecting -> Forall noEdge calls ->
  _predictionBuffer (afterAll calls s) =
    lastn (_bufferSize s) (_predictionBuffer s ++ samplesOf calls).
Proof.
  induction calls as [|c calls IH]; intros s Hb Hs Hq.
  - rewrite afterAll_nil. cbn [samplesOf flat_map]. rewrite app_nil_r.
    symmetry. apply lastn_all. exact Hb.
  - inversion Hq as [|? ? Hc Hrest]; subst.
    rewrite afterAll_cons.
    destruct (bounded_step c s Hb) as [Hb' Hz].
    rewrite (noEdge_step c s Hs Hc) in *.
    cbn [samplesOf flat_map]. fold (samplesOf calls).
    destruct (prediction c) as [p|].
    + rewrite IH; [| exact Hb' | destruct s; exact Hs | exact Hrest].
      cbn [_bufferSize _predictionBuffer set_predictionBuffer].
      rewrite (pushed_lastn s p Hb), lastn_app_l, <- app_assoc. reflexivity.
    + rewrite IH; [| exact Hb | exact Hs | exact Hrest]. reflexivity.
Qed.

Definition entryCall : Call := {| now := 0; prediction := None; presenceInfo := entering |}.

(** C7. Over any sequence of [processFrame] calls the buffer stays
    within the capacity [_bufferSize] (8 from the constructor), which no
    call changes.  Eviction is first-in first-out: after a run of calls
    without edges made while inspecting, the buffer holds the last
    [_bufferSize] elements of the old buffer followed by the samples of
    the run, in order.  From a new inspector the buffer never holds more
    than 8 samples, and ten samples pushed during one inspection leave
    the last eight of them. *)
Theorem buffer_bounded_fifo (calls : list Call) (s : t) :
  bounded s ->
  (bounded (afterAll calls s) /\ _bufferSize (afterAll calls s) = _bufferSize s) /\
  (state s = inspecting -> Forall noEdge calls ->
   _predictionBuffer (afterAll calls s) =
     lastn (_bufferSize s) (_predictionBuffer s ++ samplesOf calls)) /\
  List.length (_predictionBuffer (afterAll calls new)) <= 8 /\
  (Forall noEdge calls -> List.length (samplesOf calls) = 10 ->
   _predictionBuffer (afterAll (entryCall :: calls) new) = skipn 2 (samplesOf calls)).
Proof.
  intros Hb. split; [apply bounded_run; exact Hb|]. split; [|split].
  - apply fifo_run. exact Hb.
  - assert (Hn : bounded new) by (unfold bounded; cbn; lia).
    destruct (bounded_run calls new Hn) as [H1 H2]. unfold bounded in H1.
    rewrite H2 in H1. exact H1.
  - intros Hq Hlen. rewrite afterAll_cons.
    rewrite fifo_run; [| unfold bounded; cbn; lia | reflexivity | exact Hq].
    cbn [after entryCall now prediction presenceInfo].
    change (_predictionBuffer (after entryCall new)) with (@nil Prediction.t).
    change (_bufferSize (after entryCall new)) with 8.
    unfold lastn. cbn [app]. rewrite Hlen. reflexivity.
Qed.

Definition sampleCall (p : Prediction.t) : Call :=
  {| now := 0; prediction := Some p; presenceInfo := staying |}.

Definition tenSamples : list Prediction.t :=
  map (fun l => sample l 0.5) ["a"; "b"; "c"; "d"; "e"; "f"; "g"; "h"; "i"; "j"].

Lemma buffer_bounded_fifo_witness :
  (bounded (afterAll (map sampleCall tenSamples) (after entryCall new)) /\
   _bufferSize (afterAll (map sampleCall tenSamples) (after entryCall new)) = 8) /\
  _predictionBuffer (afterAll (map sampleCall tenSamples) (after entryCall new)) =
    map (fun l => sample l 0.5) ["c"; "d"; "e"; "f"; "g"; "h"; "i"; "j"] /\
  _predictionBuffer (afterAll (entryCall :: map sampleCall tenSamples) new) =
    map (fun l => sample l 0.5) ["c"; "d"; "e"; "f"; "g"; "h"; "i"; "j"].
Proof.
  assert (Hb : bounded (after entryCall new)) by (unfold bounded; cbn; lia).
  assert (Hq : Forall noEdge (map sampleCall tenSamples))
    by (repeat constructor).
  destruct (buffer_bounded_fifo (map sampleCall tenSamples) (after entryCall new) Hb)
    as (H1 & H2 & _ & H3).
  split; [exact H1|]. split.
  - rewrite (H2 eq_refl Hq). reflexivity.
  - rewrite (H3 Hq eq_refl). reflexivity.
Defined.

End InspectorProperties.

(** * Properties of plain objects used as maps *)

Module JsObjectFacts.

Import JsObject.

(** Keys in order of creation: a key is appended when it is first set. *)
Definition addKey (ks : list string) (k : string) : list string :=
if existsb (String.eqb k) ks then ks else ks ++ [k].

Definition keysOf (ls : list string) : list string := fold_left addKey ls [].

(** [a] was created before [b]. *)
Definition createdBefore (ks : list string) (a b : string) : Prop :=
exists xs ys, ks = xs ++ a :: ys /\ In b ys.

(** [a] occurs in [ls] before any occurrence of [b]. *)
Definition firstSeenBefore (ls : list string) (a b : string) : Prop :=
exists pre post, ls = pre ++ a :: post /\ ~ In b pre.

(** The order in which [Object.entries] lists two keys: array indices
    first, by ascending value, then the other keys by creation. *)
Definition keyBefore (ks : list string) (a b : string) : Prop :=
match arrayIndex a, arrayIndex b with
| Some i, Some j => (i <= j)%N
| Some _, None => True
| None, Some _ => False
| None, None => createdBefore ks a b
end.

Lemma existsb_eqb_In k ks : existsb (String.eqb k) ks = true <-> In k ks.
Proof.
rewrite existsb_exists. split.
- intros (x & Hx & He). apply String.eqb_eq in He. subst. exact Hx.
- intros H. exists k. split; [exact H | apply String.eqb_refl].
Qed.

Lemma getOwn_setOwn {A : Type} (o : t A) k v l :
getOwn (setOwn o k v) l = if String.eqb l k then Some v else getOwn o l.
Proof.
induction o as [|[k' v'] rest IH]; cbn.
- reflexivity.
- destruct (String.eqb k k') eqn:Hk; cbn.
  + apply String.eqb_eq in Hk. subst k'.
    destruct (String.eqb l k); reflexivity.
  + rewrite IH. destruct (String.eqb l k') eqn:Hl; [|reflexivity].
    apply String.eqb_eq in Hl. subst k'.
    destruct (String.eqb l k) eqn:Hlk; [|reflexivity].
    apply String.eqb_eq in Hlk. subst l. rewrite String.eqb_refl in Hk. discriminate.
Qed.

Lemma keys_setOwn {A : Type} (o : t A) k v :
map fst (setOwn o k v) = addKey (map fst o) k.
Proof.
unfold addKey. induction o as [|[k' v'] rest IH]; cbn.
- reflexivity.
- destruct (String.eqb k k') eqn:Hk; cbn.
  + reflexivity.
  + rewrite IH. destruct (existsb (String.eqb k) (map fst rest)); reflexivity.
Qed.

Lemma getOwn_In {A : Type} (o : t A) k v :
NoDup (map fst o) -> In (k, v) o -> getOwn o k = Some v.
Proof.
induction o as [|[k' v'] rest IH]; cbn; intros Hnd Hin.
- contradiction.
- inversion Hnd as [|? ? Hnot Hnd']; subst.
  destruct Hin as [Heq | Hin].
  + injection Heq as -> ->. rewrite String.eqb_refl. reflexivity.
  + destruct (String.eqb k k') eqn:Hk.
    * apply String.eqb_eq in Hk. subst k'.
      exfalso. apply Hnot. apply (in_map fst) in Hin. exact Hin.
    * apply IH; assumption.
Qed.

Lemma In_keysOf ls : forall k, In k (keysOf ls) <-> In k ls.
Proof.
unfold keysOf. induction ls as [|x ls IH] using rev_ind; intros k.
- reflexivity.
- rewrite fold_left_app. cbn [fold_left]. unfold addKey at 1.
  destruct (existsb (String.eqb x) (fold_left addKey ls [])) eqn:Hx.
  + apply existsb_eqb_In in Hx. rewrite in_app_iff, IH. cbn.
    apply IH in Hx. intuition (subst; auto).
  + rewrite !in_app_iff, IH. reflexivity.
Qed.

Lemma NoDup_keysOf ls : NoDup (keysOf ls).
Proof.
unfold keysOf. induction ls as [|x ls IH] using rev_ind.
- constructor.
- rewrite fold_left_app. cbn [fold_left]. unfold addKey at 1.
  destruct (existsb (String.eqb x) (fold_left addKey ls [])) eqn:Hx.
  + exact IH.
  + apply NoDup_app; [exact IH | repeat constructor; intros [] |].
    intros a Ha [<-|[]].
    apply existsb_eqb_In in Ha. congruence.
Qed.

Lemma created_firstSeen ls : forall a b,
createdBefore (keysOf ls) a b -> firstSeenBefore ls a b.
Proof.
induction ls as [|x ls IH] using rev_ind; intros a b (xs & ys & Hk & Hb).
- destruct xs; discriminate.
- unfold keysOf in Hk. rewrite fold_left_app in Hk. cbn [fold_left] in Hk.
  fold (keysOf ls) in Hk. unfold addKey in Hk.
  destruct (existsb (String.eqb x) (keysOf ls)) eqn:Hx.
  + destruct (IH a b) as (pre & post & Hls & Hpre).
    { exists xs, ys. auto. }
    exists pre, (post ++ [x]). split; [|exact Hpre].
    rewrite Hls, <- app_assoc. reflexivity.
  + destruct (exists_last (l := ys)) as (ys' & z & ->).
    { intros ->. contradiction. }
    change (xs ++ a :: ys' ++ [z]) with (xs ++ (a :: ys') ++ [z]) in Hk.
    rewrite app_assoc in Hk. apply app_inj_tail in Hk as [Hk <-].
    apply in_app_iff in Hb as [Hb | [<- | []]].
    * destruct (IH a b) as (pre & post & Hls & Hpre).
      { exists xs, ys'. auto. }
      exists pre, (post ++ [x]). split; [|exact Hpre].
      rewrite Hls, <- app_assoc. reflexivity.
    * assert (Ha : In a ls).
      { apply In_keysOf. rewrite Hk. apply in_elt. }
      destruct (in_split _ _ Ha) as (pre & post & Hls).
      exists pre, (post ++ [x]). split.
      -- rewrite Hls, <- app_assoc. reflexivity.
      -- intros Hin. assert (Hxl : In x ls) by (rewrite Hls; apply in_or_app; auto).
         apply In_keysOf, existsb_eqb_In in Hxl. congruence.
Qed.

(** Ordered pairs of a list. *)
Lemma FOP_app {A : Type} (R : A -> A -> Prop) (l1 l2 : list A) :
ForallOrdPairs R l1 -> ForallOrdPairs R l2 ->
(forall a b, In a l1 -> In b l2 -> R a b) ->
ForallOrdPairs R (l1 ++ l2).
Proof.
induction 1 as [|a l Ha Hl IH]; intros H2 Hc; cbn.
- exact H2.
- constructor.
  + apply Forall_app. split; [exact Ha|].
    apply Forall_forall. intros b Hb. apply Hc; cbn; auto.
  + apply IH; [exact H2|]. intros x y Hx Hy. apply Hc; cbn; auto.
Qed.

Lemma FOP_map {A B : Type} (f : A -> B) (R : B -> B -> Prop) (l : list A) :
ForallOrdPairs (fun x y => R (f x) (f y)) l -> ForallOrdPairs R (map f l).
Proof.
induction 1 as [|a l Ha Hl IH]; cbn; constructor; [|exact IH].
apply Forall_map. exact Ha.
Qed.

Lemma FOP_filter {A : Type} (p : A -> bool) (R : A -> A -> Prop) (l : list A) :
ForallOrdPairs R l -> ForallOrdPairs R (filter p l).
Proof.
induction 1 as [|a l Ha Hl IH]; cbn; [constructor|].
destruct (p a); [|exact IH]. constructor; [|exact IH].
apply Forall_forall. intros x Hx. apply filter_In in Hx as [Hx _].
rewrite Forall_forall in Ha. auto.
Qed.

Lemma FOP_impl {A : Type} (R R' : A -> A -> Prop) (l : list A) :
(forall a b, In a l -> In b l -> R a b -> R' a b) ->
ForallOrdPairs R l -> ForallOrdPairs R' l.
Proof.
intros Himp H. induction H as [|a l Ha Hl IH]; constructor.
- rewrite Forall_forall in *. intros x Hx. apply Himp; cbn; auto.
- apply IH. intros x y Hx Hy. apply Himp; cbn; auto.
Qed.

(** In a list with ordered pairs, what follows an element is related to it. *)
Lemma FOP_split {A : Type} (R : A -> A -> Prop) (xs : list A) a ys :
ForallOrdPairs R (xs ++ a :: ys) -> forall b, In b ys -> R a b.
Proof.
induction xs as [|x xs IH]; cbn; intros H b Hb.
- inversion H as [|? ? Ha _]; subst. rewrite Forall_forall in Ha. auto.
- inversion H; subst. eapply IH; eauto.
Qed.

(** The array-index part of [entries]. *)
Lemma In_insertByIndex {A : Type} n (e : string * value A) l x :
In x (insertByIndex n e l) <-> x = (n, e) \/ In x l.
Proof.
induction l as [|[m e'] rest IH]; cbn.
- intuition auto.
- destruct (n <? m)%N; cbn; [intuition auto|].
  rewrite IH. intuition auto.
Qed.

Lemma In_indexed {A : Type} (o : t A) n e :
In (n, e) (indexed o) <-> In e o /\ arrayIndex (fst e) = Some n.
Proof.
induction o as [|e' rest IH]; cbn.
- intuition auto.
- destruct (arrayIndex (fst e')) as [m|] eqn:Hm.
  + rewrite In_insertByIndex, IH. split.
    * intros [Heq | [Hin Hidx]]; [injection Heq as -> ->; auto | auto].
    * intros [[-> | Hin] Hidx]; [left; congruence | auto].
  + rewrite IH. split.
    * intros [Hin Hidx]; auto.
    * intros [[-> | Hin] Hidx]; [congruence | auto].
Qed.

Lemma sorted_insertByIndex {A : Type} n (e : string * value A) l :
ForallOrdPairs (fun x y => (fst x <= fst y)%N) l ->
ForallOrdPairs (fun x y => (fst x <= fst y)%N) (insertByIndex n e l).
Proof.
induction 1 as [|[m e'] rest Ha Hl IH]; cbn.
- repeat constructor.
- destruct (N.ltb_spec n m).
  + constructor; [|constructor; assumption].
    constructor; [cbn; lia|].
    rewrite Forall_forall in *. intros x Hx. specialize (Ha x Hx). cbn in *. lia.
  + constructor; [|exact IH].
    apply Forall_forall. intros x Hx. apply In_insertByIndex in Hx as [-> | Hx].
    * cbn. lia.
    * rewrite Forall_forall in Ha. auto.
Qed.

Lemma sorted_indexed {A : Type} (o : t A) :
ForallOrdPairs (fun x y => (fst x <= fst y)%N) (indexed o).
Proof.
induction o as [|e rest IH]; cbn.
- constructor.
- destruct (arrayIndex (fst e)); [apply sorted_insertByIndex|]; exact IH.
Qed.

Lemma created_in_order {A : Type} (o : t A) : forall pre,
ForallOrdPairs (fun x y => createdBefore (pre ++ map fst o) (fst x) (fst y)) o.
Proof.
induction o as [|e rest IH]; intros pre; cbn.
- constructor.
- constructor.
  + apply Forall_forall. intros y Hy. exists pre, (map fst rest).
    split; [reflexivity | apply in_map; exact Hy].
  + specialize (IH (pre ++ [fst e])). rewrite <- app_assoc in IH. exact IH.
Qed.

Lemma In_entries {A : Type} (o : t A) e : In e (entries o) <-> In e o.
Proof.
unfold entries, named. rewrite in_app_iff, in_map_iff, filter_In. split.
- intros [([n e'] & <- & Hin) | [Hin _]]; [|exact Hin].
  apply In_indexed in Hin. tauto.
- intros Hin. destruct (arrayIndex (fst e)) as [n|] eqn:Hn.
  + left. exists (n, e). split; [reflexivity|]. apply In_indexed. auto.
  + right. split; [exact Hin | reflexivity].
Qed.

(** Distinct keys denote distinct array indices. *)
Lemma arrayIndex_inj a b n : arrayIndex a = Some n -> arrayIndex b = Some n -> a = b.
Proof.
unfold arrayIndex. intros Ha Hb.
destruct (NilEmpty.uint_of_string a) as [da|] eqn:Ea; [|discriminate].
destruct (NilEmpty.uint_of_string b) as [db|] eqn:Eb; [|discriminate].
destruct (Decimal.uint_beq (Decimal.unorm da) da) eqn:Na; [|discriminate].
destruct (Decimal.uint_beq (Decimal.unorm db) db) eqn:Nb; [|discriminate].
apply Decimal.internal_uint_dec_bl in Na, Nb. cbn [andb] in *.
destruct (N.of_uint da <? 2 ^ 32 - 1)%N; [|discriminate].
destruct (N.of_uint db <? 2 ^ 32 - 1)%N; [|discriminate].
injection Ha as Ha. injection Hb as Hb.
assert (Hd : da = db).
{ rewrite <- Na, <- Nb. apply DecimalN.Unsigned.of_iff. congruence. }
apply NilEmpty.sus in Ea, Eb. congruence.
Qed.

(** [Object.entries] lists the properties in [keyBefore] order. *)
Lemma entries_in_order {A : Type} (o : t A) :
ForallOrdPairs (fun x y => keyBefore (map fst o) (fst x) (fst y)) (entries o).
Proof.
unfold entries. apply FOP_app.
- apply FOP_map.
  apply (FOP_impl (fun x y => (fst x <= fst y)%N)); [|apply sorted_indexed].
  intros [n a] [m b] Ha Hb Hle. apply In_indexed in Ha as [_ Ha], Hb as [_ Hb].
  unfold keyBefore. cbn in *. rewrite Ha, Hb. exact Hle.
- unfold named.
  apply (FOP_impl (fun x y => createdBefore (map fst o) (fst x) (fst y))).
  + intros a b Ha Hb Hc. apply filter_In in Ha as [_ Ha], Hb as [_ Hb].
    unfold keyBefore.
    destruct (arrayIndex (fst a)); [discriminate|].
    destruct (arrayIndex (fst b)); [discriminate|]. exact Hc.
  + apply FOP_filter. apply (created_in_order o []).
- intros a b Ha Hb. apply in_map_iff in Ha as ([n a'] & <- & Ha).
  apply In_indexed in Ha as [_ Ha]. unfold named in Hb.
  apply filter_In in Hb as [_ Hb]. unfold keyBefore. cbn in *. rewrite Ha.
  destruct (arrayIndex (fst b)); [discriminate | exact I].
Qed.

End JsObjectFacts.

(** * Sums of non-negative doubles *)

Module JsNumberFacts.

(** Values a sum of non-negative numbers can take: [+0], a positive
    finite number, [+Infinity]. *)
Definition summable (x : spec_float) : Prop :=
match x with
| S754_zero false | S754_finite false _ _ | S754_infinity false => True
| _ => False
end.

(** Non-negative numbers, [-0] included; not [NaN]. *)
Definition nonneg (x : spec_float) : Prop :=
match x with
| S754_zero _ | S754_finite false _ _ | S754_infinity false => True
| _ => False
end.

Lemma iter_pos_invariant {A : Type} (P : A -> Prop) (f : A -> A) :
(forall x, P x -> P (f x)) -> forall p x, P x -> P (iter_pos f p x).
Proof.
intros Hf. induction p as [p IH|p IH|]; intros x Hx; cbn; auto.
Qed.

Lemma shr_1_nonneg mrs : (0 <= shr_m mrs)%Z -> (0 <= shr_m (shr_1 mrs))%Z.
Proof.
destruct mrs as [m r s]. cbn. intros Hm.
destruct m as [|p|p]; [cbn; lia | | lia].
destruct p; cbn; lia.
Qed.

Lemma shr_nonneg mrs e n : (0 <= shr_m mrs)%Z -> (0 <= shr_m (fst (shr mrs e n)))%Z.
Proof.
intros Hm. destruct n as [|p|p]; cbn; try exact Hm.
apply (iter_pos_invariant (fun x => (0 <= shr_m x)%Z)); [apply shr_1_nonneg | exact Hm].
Qed.

Lemma shr_fexp_nonneg prec emax m e l :
(0 <= m)%Z -> (0 <= shr_m (fst (shr_fexp prec emax m e l)))%Z.
Proof.
intros Hm. unfold shr_fexp. apply shr_nonneg.
destruct l as [|[]]; exact Hm.
Qed.

Lemma round_nearest_even_nonneg m l : (0 <= m)%Z -> (0 <= round_nearest_even m l)%Z.
Proof.
intros Hm. destruct l as [|[]]; cbn; try lia.
destruct (Z.even m); lia.
Qed.

Lemma binary_round_aux_summable prec emax m e l :
(0 <= m)%Z -> summable (binary_round_aux prec emax false m e l).
Proof.
intros Hm. unfold binary_round_aux.
pose proof (shr_fexp_nonneg prec emax m e l Hm) as H1.
destruct (shr_fexp prec emax m e l) as [mrs' e']. cbn [fst] in H1.
pose proof (shr_fexp_nonneg prec emax _ e' loc_Exact
              (round_nearest_even_nonneg _ (loc_of_shr_record mrs') H1)) as H2.
destruct (shr_fexp prec emax _ e' loc_Exact) as [mrs'' e'']. cbn [fst] in H2.
destruct (shr_m mrs'') as [|p|p]; [exact I | | lia].
destruct (Z.leb e'' (emax - prec)); exact I.
Qed.

Lemma binary_round_summable prec emax m e : summable (binary_round prec emax false m e).
Proof.
unfold binary_round. destruct (shl_align m e _) as [mz ez].
apply binary_round_aux_summable. lia.
Qed.

Lemma SFadd_summable prec emax x y :
summable x -> nonneg y -> summable (SFadd prec emax x y).
Proof.
destruct x as [[] | [] | | [] mx ex]; try contradiction;
  destruct y as [[] | [] | | [] my ey]; try contradiction; intros _ _;
  try exact I.
cbn. apply binary_round_summable.
Qed.

Lemma Prim2SF_zero : Prim2SF 0 = S754_zero false.
Proof. reflexivity. Qed.

Lemma leb_zero_nonneg c : PrimFloat.leb 0 c = true -> nonneg (Prim2SF c).
Proof.
rewrite leb_spec, Prim2SF_zero. unfold SFleb.
destruct (Prim2SF c) as [s | [] | | [] m e]; cbn; intros H; try discriminate; exact I.
Qed.

Lemma add_summable x c :
summable (Prim2SF x) -> nonneg (Prim2SF c) -> summable (Prim2SF (x + c)).
Proof. intros Hx Hc. rewrite add_spec. apply SFadd_summable; assumption. Qed.

(** On such a value [x || 0] is [x]. *)
Lemma orZero_summable x : summable (Prim2SF x) -> JsNumber.orZero x = x.
Proof.
intros Hx. unfold JsNumber.orZero, JsNumber.truthy, PrimFloat.is_nan.
rewrite !FloatAxioms.eqb_spec, Prim2SF_zero.
destruct (Prim2SF x) as [[] | [] | | [] m e] eqn:Hsf; try contradiction; cbn.
- rewrite <- (SF2Prim_Prim2SF x), Hsf. reflexivity.
- reflexivity.
- unfold SFeqb. cbn. rewrite Z.compare_refl, Pos.compare_cont_refl. reflexivity.
Qed.

End JsNumberFacts.

(** * Properties of aggregation *)

Module AggregationProperties.

Import JsObject JsObjectFacts Inspector.

Definition labels (buffer : list Prediction.t) : list string :=
map Prediction.label buffer.

(** The samples of the buffer that bear label [l], in buffer order. *)
Definition bearing (l : string) (buffer : list Prediction.t) : list Prediction.t :=
filter (fun p => String.eqb (Prediction.label p) l) buffer.

Definition votesFor (l : string) (buffer : list Prediction.t) : nat :=
List.length (bearing l buffer).

Definition confidencesOf (l : string) (buffer : list Prediction.t) : list float :=
map Prediction.confidence (bearing l buffer).

(** What [confidenceSums[l]] accumulates over the confidences of one
    label: each step is [(sum || 0) + c]. *)
Definition runningSum (cs : list float) : float :=
fold_left (fun s c => (JsNumber.orZero s + c)%float) cs 0%float.

(** No label of the buffer names a member of [Object.prototype]. *)
Definition plain (buffer : list Prediction.t) : Prop :=
Forall (fun p => inherited (Prediction.label p) = false) buffer.

(** The order in which the vote scan meets two labels of a buffer. *)
Definition precedes (ls : list string) (a b : string) : Prop :=
match arrayIndex a, arrayIndex b with
| Some i, Some j => (i < j)%N
| Some _, None => True
| None, Some _ => False
| None, None => firstSeenBefore ls a b
end.

Lemma get_plain {A : Type} (o : JsObject.t A) k : inherited k = false -> JsObject.get o k = getOwn o k.
Proof. intros H. unfold JsObject.get. rewrite H. destruct (getOwn o k); reflexivity. Qed.

Lemma set_plain {A : Type} (o : JsObject.t A) k v : inherited k = false -> JsObject.set o k v = setOwn o k v.
Proof.
intros H. unfold JsObject.set. destruct (String.eqb k "__proto__") eqn:Hk; [|reflexivity].
apply String.eqb_eq in Hk. subst k. discriminate H.
Qed.

Lemma tally_snoc buffer p : tally (buffer ++ [p]) = tallyStep (tally buffer) p.
Proof. unfold tally. rewrite fold_left_app. reflexivity. Qed.

Lemma bearing_snoc l buffer p :
bearing l (buffer ++ [p]) =
  bearing l buffer ++ (if String.eqb (Prediction.label p) l then [p] else []).
Proof. unfold bearing. rewrite filter_app. reflexivity. Qed.

Lemma runningSum_snoc cs c :
runningSum (cs ++ [c]) = (JsNumber.orZero (runningSum cs) + c)%float.
Proof. unfold runningSum. rewrite fold_left_app. reflexivity. Qed.

(** The two tally objects after a buffer without inherited names. *)
Lemma tally_plain buffer :
plain buffer ->
map fst (fst (tally buffer)) = keysOf (labels buffer) /\
(forall l, getOwn (fst (tally buffer)) l =
   if votesFor l buffer =? 0 then None else Some (Num (votesFor l buffer))) /\
(forall l, getOwn (snd (tally buffer)) l =
   if votesFor l buffer =? 0 then None
   else Some (Num (runningSum (confidencesOf l buffer)))).
Proof.
induction buffer as [|p buffer IH] using rev_ind; intros Hp.
- cbn. auto.
- apply Forall_app in Hp as [Hp Hx]. inversion Hx as [|? ? Hx' _]; subst.
  destruct (IH Hp) as (Hk & Hv & Hs). clear IH.
  rewrite tally_snoc. destruct (tally buffer) as [votes sums]. cbn [fst snd] in *.
  unfold tallyStep. cbn [fst snd].
  rewrite !get_plain, !set_plain by exact Hx'.
  split; [|split].
  + rewrite keys_setOwn, Hk. unfold labels, keysOf.
    rewrite map_app, fold_left_app. reflexivity.
  + intros l. rewrite getOwn_setOwn, Hv. unfold votesFor.
    rewrite bearing_snoc, length_app, (String.eqb_sym l).
    destruct (String.eqb (Prediction.label p) l) eqn:Hl; cbn [List.length].
    * apply String.eqb_eq in Hl. subst l.
      destruct (List.length (bearing (Prediction.label p) buffer)) as [|n]; cbn.
      -- reflexivity.
      -- rewrite Nat.add_1_r. reflexivity.
    * rewrite Nat.add_0_r. apply Hv.
  + intros l. rewrite getOwn_setOwn, Hs. unfold votesFor, confidencesOf.
    rewrite bearing_snoc, length_app, map_app, (String.eqb_sym l).
    destruct (String.eqb (Prediction.label p) l) eqn:Hl; cbn [List.length map].
    * apply String.eqb_eq in Hl. subst l.
      rewrite runningSum_snoc.
      destruct (bearing (Prediction.label p) buffer) as [|q qs]; cbn [List.length].
      -- reflexivity.
      -- rewrite Nat.add_1_r. reflexivity.
    * rewrite Nat.add_0_r, app_nil_r. apply Hs.
Qed.

(** The vote scan over any list of entries, from any starting pair: it
    either keeps the start, no count exceeding it, or stops on the first
    entry that holds the greatest count. *)
Lemma scan_spec (es : list (string * value nat)) : forall b0 v0 r,
fold_left bestStep es (b0, v0) = r ->
(r = (b0, v0) /\ forall k c, In (k, Num c) es -> c <= v0) \/
(exists xs ys,
   es = xs ++ (fst r, Num (snd r)) :: ys /\ v0 < snd r /\
   (forall k c, In (k, Num c) xs -> c < snd r) /\
   (forall k c, In (k, Num c) ys -> c <= snd r)).
Proof.
induction es as [|[k v] es IH]; intros b0 v0 r Hr; cbn [fold_left] in Hr.
- left. split; [symmetry; exact Hr | intros ? ? []].
- unfold bestStep at 2 in Hr. cbn [fst snd] in Hr.
  destruct v as [c|].
  + destruct (Nat.ltb_spec v0 c) as [Hlt|Hge].
    * destruct (IH k c r Hr) as [[Heq Hall] | (xs & ys & Hes & Hv & Hxs & Hys)].
      -- right. exists [], es. rewrite Heq. cbn [fst snd app].
         split; [reflexivity|]. split; [exact Hlt|]. split; [intros ? ? []|exact Hall].
      -- right. exists ((k, Num c) :: xs), ys.
         split; [cbn; rewrite <- Hes; reflexivity|]. split; [lia|].
         split; [|exact Hys].
         intros k' c' [Heq | Hin]; [injection Heq as <- <-; exact Hv | eauto].
    * destruct (IH b0 v0 r Hr) as [[Heq Hall] | (xs & ys & Hes & Hv & Hxs & Hys)].
      -- left. split; [exact Heq|].
         intros k' c' [Heq' | Hin]; [injection Heq' as <- <-; exact Hge | eauto].
      -- right. exists ((k, Num c) :: xs), ys.
         split; [cbn; rewrite <- Hes; reflexivity|]. split; [exact Hv|].
         split; [|exact Hys].
         intros k' c' [Heq | Hin]; [injection Heq as <- <-; lia | eauto].
  + destruct (IH b0 v0 r Hr) as [[Heq Hall] | (xs & ys & Hes & Hv & Hxs & Hys)].
    * left. split; [exact Heq|].
      intros k' c' [Heq' | Hin]; [discriminate | eauto].
    * right. exists ((k, NotNum) :: xs), ys.
      split; [cbn; rewrite <- Hes; reflexivity|]. split; [exact Hv|].
      split; [|exact Hys].
      intros k' c' [Heq | Hin]; [discriminate | eauto].
Qed.

Lemma getOwn_Some_In {A : Type} (o : JsObject.t A) k v : getOwn o k = Some v -> In (k, v) o.
Proof.
induction o as [|[k' v'] rest IH]; cbn; [discriminate|].
destruct (String.eqb k k') eqn:Hk.
- apply String.eqb_eq in Hk. subst k'. intros [= ->]. auto.
- auto.
Qed.

Lemma votesFor_pos l buffer : In l (labels buffer) <-> 0 < votesFor l buffer.
Proof.
unfold labels, votesFor, bearing. induction buffer as [|p buffer IH]; cbn.
- split; [intros [] | lia].
- destruct (String.eqb (Prediction.label p) l) eqn:Hl; cbn.
  + apply String.eqb_eq in Hl. split; [lia | auto].
  + rewrite <- IH. split; [|auto].
    intros [Heq | Hin]; [|exact Hin]. subst l. rewrite String.eqb_refl in Hl. discriminate.
Qed.

Lemma keyBefore_precedes ls a b :
a <> b -> keyBefore (keysOf ls) a b -> precedes ls a b.
Proof.
unfold keyBefore, precedes. intros Hab.
destruct (arrayIndex a) as [i|] eqn:Ha, (arrayIndex b) as [j|] eqn:Hb; auto.
- intros Hle. destruct (N.eq_dec i j) as [->|]; [|lia].
  exfalso. apply Hab. exact (arrayIndex_inj _ _ _ Ha Hb).
- apply created_firstSeen.
Qed.

(** The label and count the vote scan ends with, for a non-empty buffer
    without inherited names. *)
Lemma winner_spec buffer :
buffer <> [] -> plain buffer ->
forall w n, best (fst (tally buffer)) = (w, n) ->
n = votesFor w buffer /\ 0 < n /\
(forall l, votesFor l buffer <= n) /\
(forall l, In l (labels buffer) -> votesFor l buffer = n ->
   l = w \/ precedes (labels buffer) w l).
Proof.
intros Hne Hp w n Hbest.
destruct (tally_plain buffer Hp) as (Hk & Hv & _).
set (votes := fst (tally buffer)) in *.
assert (Hnd : NoDup (map fst votes)) by (rewrite Hk; apply NoDup_keysOf).
assert (F1 : forall k c, In (k, Num c) (entries votes) ->
                         c = votesFor k buffer /\ 0 < c).
{ intros k c Hin. apply (proj1 (In_entries _ _)) in Hin. apply (getOwn_In _ _ _ Hnd) in Hin.
  rewrite Hv in Hin. destruct (Nat.eqb_spec (votesFor k buffer) 0); [discriminate|].
  injection Hin as <-. split; [reflexivity | lia]. }
assert (F2 : forall l, 0 < votesFor l buffer ->
                       In (l, Num (votesFor l buffer)) (entries votes)).
{ intros l Hl. apply (proj2 (In_entries _ _)), getOwn_Some_In. rewrite Hv.
  destruct (Nat.eqb_spec (votesFor l buffer) 0); [lia | reflexivity]. }
unfold best in Hbest.
destruct (scan_spec _ _ _ _ Hbest) as [[_ Hall] | (xs & ys & Hes & Hpos & Hxs & Hys)].
- exfalso. destruct buffer as [|p buffer]; [contradiction|].
  assert (Hin : In (Prediction.label p) (labels (p :: buffer))) by (cbn; auto).
  apply votesFor_pos in Hin. pose proof (Hall _ _ (F2 _ Hin)). lia.
- cbn [fst snd] in *.
  assert (Hw : In (w, Num n) (entries votes)) by (rewrite Hes; apply in_elt).
  destruct (F1 _ _ Hw) as [Hn Hn0].
  assert (Hcases : forall l, 0 < votesFor l buffer ->
            votesFor l buffer < n \/ l = w \/
            (votesFor l buffer <= n /\ In (l, Num (votesFor l buffer)) ys)).
  { intros l Hl. pose proof (F2 l Hl) as Hin. rewrite Hes in Hin.
    apply in_app_iff in Hin as [Hin | [Heq | Hin]].
    - left. eauto.
    - right. left. congruence.
    - right. right. split; eauto. }
  split; [exact Hn|]. split; [exact Hn0|]. split.
  + intros l. destruct (Nat.eq_dec (votesFor l buffer) 0) as [H0|H0]; [lia|].
    destruct (Hcases l) as [H | [-> | [H _]]]; lia.
  + intros l Hl Heq. apply votesFor_pos in Hl.
    destruct (Hcases l Hl) as [H | [-> | [_ Hin]]]; [lia | auto |].
    destruct (string_dec w l) as [<-|Hwl]; [left; reflexivity | right].
    apply keyBefore_precedes; [exact Hwl|]. rewrite <- Hk.
    pose proof (entries_in_order votes) as Hord. rewrite Hes in Hord.
    exact (FOP_split _ _ _ _ Hord _ Hin).
Qed.

(** The verdict for a non-empty buffer without inherited names. *)
Lemma aggregate_plain buffer :
buffer <> [] -> plain buffer ->
exists w,
  best (fst (tally buffer)) = (w, votesFor w buffer) /\
  aggregate buffer =
    Some (Verdict.make w (runningSum (confidencesOf w buffer)
                          / JsNumber.ofNat (votesFor w buffer))%float).
Proof.
intros Hne Hp.
destruct (best (fst (tally buffer))) as [w n] eqn:Hbest.
destruct (winner_spec buffer Hne Hp w n Hbest) as (Hn & Hn0 & _).
destruct (tally_plain buffer Hp) as (_ & Hv & Hs).
exists w. subst n. split; [reflexivity|].
unfold aggregate. destruct buffer as [|p buffer]; [contradiction|].
destruct (tally (p :: buffer)) as [votes sums]. cbn [fst snd] in *.
rewrite Hbest. cbn [fst]. unfold JsObject.get. rewrite Hv, Hs.
destruct (Nat.eqb_spec (votesFor w (p :: buffer)) 0); [lia | reflexivity].
Qed.

(** The sum of a list of numbers, accumulated from the left, and their
    arithmetic mean, in double precision. *)
Definition sum (cs : list float) : float := fold_left PrimFloat.add cs 0%float.

Definition mean (cs : list float) : float :=
(sum cs / JsNumber.ofNat (List.length cs))%float.

Definition nonNegative (c : float) : Prop := (0 <=? c)%float = true.

(** On non-negative confidences the [|| 0] guard never alters a sum. *)
Lemma runningSum_sum cs :
Forall nonNegative cs ->
runningSum cs = sum cs /\ JsNumberFacts.summable (Prim2SF (sum cs)).
Proof.
induction cs as [|c cs IH] using rev_ind; intros Hcs.
- split; [reflexivity | exact I].
- apply Forall_app in Hcs as [Hcs Hc]. inversion Hc as [|? ? Hc' _]; subst.
  destruct (IH Hcs) as [Hr Hs].
  rewrite runningSum_snoc, Hr, (JsNumberFacts.orZero_summable _ Hs).
  unfold sum. rewrite fold_left_app. cbn [fold_left]. split; [reflexivity|].
  apply JsNumberFacts.add_summable; [exact Hs|].
  apply JsNumberFacts.leb_zero_nonneg. exact Hc'.
Qed.

Lemma nonNegative_confidencesOf l buffer :
Forall (fun p => nonNegative (Prediction.confidence p)) buffer ->
Forall nonNegative (confidencesOf l buffer).
Proof.
intros H. unfold confidencesOf, bearing. apply Forall_map.
rewrite Forall_forall in *. intros p Hp. apply filter_In in Hp as [Hp _]. auto.
Qed.

(** The winner as first-seen tie-breaking describes it: a label of the
    buffer with the greatest number of votes, seen before every other
    label that has as many. *)
Definition firstSeenWinner (buffer : list Prediction.t) (w : string) : Prop :=
In w (labels buffer) /\
(forall l, votesFor l buffer <= votesFor w buffer) /\
(forall l, In l (labels buffer) -> l <> w ->
   votesFor l buffer = votesFor w buffer -> firstSeenBefore (labels buffer) w l).

Definition sample := InspectorProperties.sample.

(** C3, as stated, fails: with one vote each for ["2"] and ["1"], in that
    order, the verdict is ["1"], which was seen second. *)
Lemma tie_not_first_seen :
exists v,
  aggregate [sample "2" 0.9; sample "1" 0.8] = Some v /\
  ~ firstSeenWinner [sample "2" 0.9; sample "1" 0.8] (Verdict.label v).
Proof.
eexists. split; [vm_compute; reflexivity|].
cbn [Verdict.label]. intros (_ & _ & H).
destruct (H "2") as (pre & post & Heq & Hpre).
- cbn. auto.
- discriminate.
- reflexivity.
- destruct pre as [|x pre]; cbn in Heq.
  + discriminate Heq.
  + injection Heq as <- _. apply Hpre. cbn. auto.
Qed.

(** C3 (amended). For a non-empty buffer whose labels name no member of
    [Object.prototype] and whose confidences are non-negative numbers,
    the verdict's label is a label of the buffer with the greatest number
    of votes, and among the labels with that many votes it is the first
    in the enumeration order of the tally object: labels that are array
    indices come first, by ascending value, then the other labels in
    first-seen order.  Its confidence is the mean, in double precision,
    of the confidences of the samples bearing that label, and
    [isDefective], [defectType] and [status] follow from the label.  The
    buffer [ok(0.9), scratch(0.8), scratch(0.7)] yields [scratch] with
    confidence [0.75], defective. *)
Theorem majority_vote :
(forall buffer,
   buffer <> [] -> plain buffer ->
   Forall (fun p => nonNegative (Prediction.confidence p)) buffer ->
   exists v,
     aggregate buffer = Some v /\
     In (Verdict.label v) (labels buffer) /\
     (forall l, votesFor l buffer <= votesFor (Verdict.label v) buffer) /\
     (forall l, In l (labels buffer) -> l <> Verdict.label v ->
        votesFor l buffer = votesFor (Verdict.label v) buffer ->
        precedes (labels buffer) (Verdict.label v) l) /\
     Verdict.confidence v = mean (confidencesOf (Verdict.label v) buffer) /\
     Verdict.isDefective v = negb (String.eqb (Verdict.label v) "ok") /\
     Verdict.defectType v =
       (if String.eqb (Verdict.label v) "ok" then None else Some (Verdict.label v)) /\
     Verdict.status v =
       (if String.eqb (Verdict.label v) "ok" then "ok" else "defective")) /\
(forall p1 p2 p3,
   Prediction.label p1 = "ok" -> Prediction.confidence p1 = 0.9%float ->
   Prediction.label p2 = "scratch" -> Prediction.confidence p2 = 0.8%float ->
   Prediction.label p3 = "scratch" -> Prediction.confidence p3 = 0.7%float ->
   aggregate [p1; p2; p3] =
     Some {| Verdict.label := "scratch";
             Verdict.confidence := 0.75;
             Verdict.isDefective := true;
             Verdict.defectType := Some "scratch";
             Verdict.status := "defective" |}).
Proof.
split.
- intros buffer Hne Hp Hc.
  destruct (aggregate_plain buffer Hne Hp) as (w & Hbest & Hagg).
  destruct (winner_spec buffer Hne Hp _ _ Hbest) as (_ & Hpos & Hmax & Hties).
  eexists. split; [exact Hagg|]. cbn [Verdict.make Verdict.label Verdict.confidence
    Verdict.isDefective Verdict.defectType Verdict.status].
  split; [apply votesFor_pos; exact Hpos|].
  split; [exact Hmax|].
  split.
  { intros l Hl Hneq Heq. destruct (Hties l Hl Heq) as [->|H]; [contradiction | exact H]. }
  split.
  { destruct (runningSum_sum _ (nonNegative_confidencesOf w buffer Hc)) as [-> _].
    unfold mean, confidencesOf, votesFor. rewrite length_map. reflexivity. }
  split; [reflexivity|].
  destruct (String.eqb w "ok"); split; reflexivity.
- intros [l1 cs1 c1 d1] [l2 cs2 c2 d2] [l3 cs3 c3 d3]; cbn.
  intros -> -> -> -> -> ->. reflexivity.
Qed.

Lemma majority_vote_witness :
exists v,
  aggregate [sample "9" 0.5; sample "dent" 1; sample "10" 0.25; sample "10" 0.75;
             sample "dent" 0.5; sample "9" 1] = Some v /\
  Verdict.label v = "9" /\ Verdict.confidence v = 0.75%float.
Proof.
destruct (proj1 majority_vote
            [sample "9" 0.5; sample "dent" 1; sample "10" 0.25; sample "10" 0.75;
             sample "dent" 0.5; sample "9" 1])
  as (v & Hv & _).
- discriminate.
- repeat constructor.
- repeat constructor.
- exists v. split; [exact Hv|].
  vm_compute in Hv. injection Hv as <-. split; reflexivity.
Defined.

(** C10 fails on the code: a buffer whose only label is ["constructor"]
    gets the default label ["ok"], which no sample bears, with a [NaN]
    confidence.  [votes["constructor"]] is found on [Object.prototype], so
    the tally stores a string instead of a count and the scan, comparing
    that string with a number, never replaces the default. *)
Lemma inherited_name_verdict :
aggregate [sample "constructor" 0.9] =
  Some {| Verdict.label := "ok";
          Verdict.confidence := PrimFloat.nan;
          Verdict.isDefective := false;
          Verdict.defectType := None;
          Verdict.status := "ok" |} /\
~ In "ok" (labels [sample "constructor" 0.9]).
Proof.
split; [reflexivity|]. cbn. intros [H|[]]. discriminate H.
Qed.

End AggregationProperties.

(** * Further properties of the inspection state machine *)

Module InspectorInvariants.

Import CameraManager Inspector InspectorProperties.

(** The shape every state reached from the constructor has: the state is
    [idle] or [inspecting]; there is a current inspection exactly while
    inspecting; the buffer is empty while idle. *)
Definition wellShaped (s : t) : Prop :=
  state s <> complete /\
  (state s = idle <-> currentInspection s = None) /\
  (state s = idle -> _predictionBuffer s = []).

Lemma wellShaped_step c s : wellShaped s -> wellShaped (after c s).
Proof.
  unfold wellShaped, after, processFrame.
  destruct s as [st ci sts buf size mc]. cbn -[Nat.ltb].
  intros (Hc & Hi & Hb).
  destruct (justEntered (presenceInfo c)); cbn -[Nat.ltb].
  - destruct (prediction c) as [p|]; cbn -[Nat.ltb].
    + destruct (size <? 1); cbn;
        destruct (justLeft (presenceInfo c)); cbn;
        repeat split; intros; congruence.
    + destruct (justLeft (presenceInfo c)); cbn;
        repeat split; intros; congruence.
  - destruct st; [| |contradiction].
    + destruct (prediction c) as [p|]; cbn; rewrite andb_false_r; cbn; auto.
    + destruct (prediction c) as [p|]; cbn -[Nat.ltb].
      * destruct (size <? List.length (buf ++ [p])); cbn;
          destruct (justLeft (presenceInfo c)); cbn;
          repeat split; intros; try congruence; try (apply Hi; assumption).
      * destruct (justLeft (presenceInfo c)); cbn;
          repeat split; intros; try congruence; try (apply Hi; assumption).
Qed.

Lemma wellShaped_run calls : forall s, wellShaped s -> wellShaped (afterAll calls s).
Proof.
  induction calls as [|c calls IH]; intros s Hs.
  - rewrite afterAll_nil. exact Hs.
  - rewrite afterAll_cons. apply IH, wellShaped_step, Hs.
Qed.

(** A call that reports completion leaves no current inspection. *)
Lemma complete_clears (c : Call) (s : t) :
  inspectionComplete (outcome c s) = true -> currentInspection (after c s) = None.
Proof.
  unfold outcome, after, processFrame.
  destruct s as [st ci sts buf size mc]. cbn -[Nat.ltb].
  destruct (justEntered (presenceInfo c)); cbn -[Nat.ltb].
  - destruct (prediction c) as [p|]; cbn -[Nat.ltb].
    + destruct (size <? 1); cbn;
        destruct (justLeft (presenceInfo c)); cbn; congruence.
    + destruct (justLeft (presenceInfo c)); cbn; congruence.
  - destruct (prediction c) as [p|]; cbn -[Nat.ltb].
    + destruct st; cbn -[Nat.ltb].
      * rewrite andb_false_r. cbn. congruence.
      * destruct (size <? List.length (buf ++ [p])); cbn;
          destruct (justLeft (presenceInfo c)); cbn; congruence.
      * rewrite andb_false_r. cbn. congruence.
    + destruct st; cbn.
      * rewrite andb_false_r. cbn. congruence.
      * destruct (justLeft (presenceInfo c)); cbn; congruence.
      * rewrite andb_false_r. cbn. congruence.
Qed.

(** Whatever calls a new inspector receives, its state is never
    [complete], it holds a current inspection exactly while it is
    [inspecting], and its buffer is empty whenever it is [idle]. *)
Theorem reachable_states (calls : list Call) :
  let s := afterAll calls new in
  state s <> complete /\
  (state s = idle <-> currentInspection s = None) /\
  (state s = idle -> _predictionBuffer s = []).
Proof.
  apply (wellShaped_run calls new).
  unfold wellShaped. cbn. repeat split; intros; congruence.
Qed.

(** For every call in every state: the call reports completion exactly
    when it returns a [finalResult] property; a completing call also
    reports [stateChanged] and leaves the inspector idle with an empty
    buffer and no current inspection; a call that changes [state] reports
    [stateChanged]; a call without sample returns a null [currentResult]. *)
Theorem outcome_coherent (c : Call) (s : t) :
  let r := outcome c s in
  let s' := after c s in
  (inspectionComplete r = true <-> finalResult r <> None) /\
  (inspectionComplete r = true ->
     stateChanged r = true /\ state s' = idle /\
     _predictionBuffer s' = [] /\ currentInspection s' = None) /\
  (state s' <> state s -> stateChanged r = true) /\
  (prediction c = None -> currentResult r = None).
Proof.
  unfold outcome, after, processFrame.
  destruct s as [st ci sts buf size mc]. cbn -[Nat.ltb].
  destruct (justEntered (presenceInfo c)); cbn -[Nat.ltb].
  - destruct (prediction c) as [p|]; cbn -[Nat.ltb].
    + destruct (size <? 1); cbn;
        destruct (justLeft (presenceInfo c)); cbn;
        repeat split; intros; congruence.
    + destruct (justLeft (presenceInfo c)); cbn;
        repeat split; intros; congruence.
  - destruct (prediction c) as [p|]; cbn -[Nat.ltb].
    + destruct st; cbn -[Nat.ltb].
      * rewrite andb_false_r. cbn. repeat split; intros; congruence.
      * destruct (size <? List.length (buf ++ [p])); cbn;
          destruct (justLeft (presenceInfo c)); cbn;
          repeat split; intros; congruence.
      * rewrite andb_false_r. cbn. repeat split; intros; congruence.
    + destruct st; cbn.
      * rewrite andb_false_r. cbn. repeat split; intros; congruence.
      * destruct (justLeft (presenceInfo c)); cbn;
          repeat split; intros; congruence.
      * rewrite andb_false_r. cbn. repeat split; intros; congruence.
Qed.

(** The buffer a completing call aggregates: the old buffer, or the empty
    one when the call also carries the entry edge, with the sample of the
    call pushed onto it. *)
Definition bufferAtExit (c : Call) (s : t) : list Prediction.t :=
  let base := if justEntered (presenceInfo c) then [] else _predictionBuffer s in
  match prediction c with
  | Some p => pushed (set_predictionBuffer base s) p
  | None => base
  end.

(** A call with the exit edge, made while inspecting or together with the
    entry edge, completes the inspection: [finalResult] is the aggregate
    of the buffer including the sample of that very call, and is null
    exactly when no sample is left to aggregate; [currentResult] is the
    same verdict when the call carries a sample. *)
Theorem completion_result (c : Call) (s : t) :
  justLeft (presenceInfo c) = true ->
  justEntered (presenceInfo c) = true \/ state s = inspecting ->
  let r := outcome c s in
  inspectionComplete r = true /\
  finalResult r = Some (aggregate (bufferAtExit c s)) /\
  (finalResult r = Some None <-> bufferAtExit c s = []) /\
  currentResult r =
    match prediction c with
    | Some _ => aggregate (bufferAtExit c s)
    | None => None
    end.
Proof.
  intros Hl Hin.
  assert (Hnull : forall b, Some (aggregate b) = Some None <-> b = []).
  { intros b. split.
    - destruct b as [|p b]; [reflexivity|].
      destruct (aggregate_cons p b) as [v ->]. discriminate.
    - intros ->. reflexivity. }
  unfold outcome, bufferAtExit, pushed, processFrame. rewrite Hl.
  destruct s as [st ci sts buf size mc]. cbn -[Nat.ltb] in *.
  destruct (justEntered (presenceInfo c)); cbn -[Nat.ltb].
  - destruct (prediction c) as [p|]; cbn -[Nat.ltb].
    + destruct (size <? 1); cbn; repeat split; try apply Hnull.
    + repeat split; try apply Hnull.
  - destruct Hin as [Hin|Hin]; [discriminate|]. subst st.
    destruct (prediction c) as [p|]; cbn -[Nat.ltb].
    + destruct (size <? List.length (buf ++ [p])); cbn; repeat split; try apply Hnull.
    + repeat split; try apply Hnull.
Qed.

Lemma completion_result_witness :
  let c := {| now := 99; prediction := Some (sample "crack" 0.5); presenceInfo := leaving |} in
  let r := outcome c busy in
  inspectionComplete r = true /\
  finalResult r = Some (aggregate [sample "scratch" 0.8; sample "crack" 0.5]) /\
  (finalResult r = Some None <-> bufferAtExit c busy = []) /\
  currentResult r = aggregate [sample "scratch" 0.8; sample "crack" 0.5].
Proof.
  apply (completion_result
           {| now := 99; prediction := Some (sample "crack" 0.5); presenceInfo := leaving |}
           busy).
  - reflexivity.
  - right. reflexivity.
Defined.

End InspectorInvariants.

(** * Properties of the detection loop *)

Module AppProperties.

Import CameraManager Inspector.

(** Presence edges are exactly the changes of the presence flag. *)
Lemma edges_are_changes (v : Video) (c : CameraManager.t) :
  let r := PresenceProperties.result v c in
  let c' := PresenceProperties.after v c in
  justEntered r = negb (_productPresent c) && _productPresent c' /\
  justLeft r = _productPresent c && negb (_productPresent c').
Proof.
  unfold PresenceProperties.result, PresenceProperties.after, detectProductPresence, debounce.
  destruct c as [act prev mt pt cnt req pres]; cbn.
  destruct (negb act || (readyState v <? 2)%Z); cbn.
  - destruct pres; split; reflexivity.
  - destruct prev as [prev|]; cbn.
    + destruct (hasMotion _ _ _); cbn.
      * destruct pres; split; reflexivity.
      * destruct pres; cbn; [|split; reflexivity].
        destruct (req <=? S cnt); split; reflexivity.
    + destruct pres; split; reflexivity.
Qed.

(** How one call moves the inspector, in terms of the two edges. *)
Lemma processFrame_flags n p pi (s : Inspector.t) :
  let r := fst (runState (Inspector.processFrame n p pi) s) in
  let s' := snd (runState (Inspector.processFrame n p pi) s) in
  let active := justEntered pi || isInspecting (state s) in
  isInspecting (state s') = active && negb (justLeft pi) /\
  inspectionComplete r = justLeft pi && active /\
  stateChanged r = justEntered pi || (justLeft pi && active).
Proof.
  unfold Inspector.processFrame.
  destruct s as [st ci sts buf size mc]. cbn -[Nat.ltb].
  destruct (justEntered pi); cbn -[Nat.ltb].
  - destruct p as [p|]; cbn -[Nat.ltb].
    + destruct (size <? 1); cbn; destruct (justLeft pi); cbn; auto.
    + destruct (justLeft pi); cbn; auto.
  - destruct p as [p|]; cbn -[Nat.ltb].
    + destruct st; cbn -[Nat.ltb].
      * rewrite andb_false_r. cbn. destruct (justLeft pi); auto.
      * destruct (size <? List.length (buf ++ [p])); cbn; destruct (justLeft pi); cbn; auto.
      * rewrite andb_false_r. cbn. destruct (justLeft pi); auto.
    + destruct st; cbn; destruct (justLeft pi); cbn; auto.
Qed.

(** The inspector is inspecting exactly while the camera holds a product
    present. *)
Definition synced (a : App.t) : Prop :=
  isInspecting (state (App.inspector a)) = _productPresent (App.cameraManager a).

Definition outputs (fs : list App.Frame) (a : App.t)
  : list (PresenceSignal * FrameOutcome) := fst (runState (App.processFrames fs) a).
Definition afterFrames (fs : list App.Frame) (a : App.t) : App.t :=
  snd (runState (App.processFrames fs) a).

(** What a pass reports, given the presence signal it detected. *)
Definition reportsEdges (o : PresenceSignal * FrameOutcome) : Prop :=
  stateChanged (snd o) = justEntered (fst o) || justLeft (fst o) /\
  inspectionComplete (snd o) = justLeft (fst o).

Lemma pass_synced f a :
  synced a ->
  let o := fst (runState (App.processFrame f) a) in
  let a' := snd (runState (App.processFrame f) a) in
  synced a' /\ reportsEdges o /\
  (justEntered (fst o) = true -> state (App.inspector a) <> inspecting).
Proof.
  unfold synced, reportsEdges, App.processFrame. intros Hs.
  rewrite run_bind. cbn [runState get MonadState_state fst snd].
  pose proof (edges_are_changes (App.video f) (App.cameraManager a)) as He.
  unfold PresenceProperties.result, PresenceProperties.after in He. cbv zeta in He.
  destruct (runState (detectProductPresence (App.video f)) (App.cameraManager a))
    as [presence cam]. cbn [fst snd] in He. destruct He as [Hje Hjl].
  pose proof (processFrame_flags (App.clock f) (App.predicted f) presence
                (App.inspector a)) as Hf. cbv zeta in Hf.
  destruct (runState (Inspector.processFrame (App.clock f) (App.predicted f) presence)
              (App.inspector a)) as [result insp'].
  cbn [fst snd] in Hf. destruct Hf as (Hi & Hc & Hch).
  cbn. rewrite Hi, Hc, Hch, Hje, Hjl, Hs.
  destruct (_productPresent (App.cameraManager a)) eqn:Hp, (_productPresent cam);
    cbn; repeat split; intros; try discriminate.
  destruct (state (App.inspector a)); cbn in Hs; congruence.
Qed.

(** Driven by the loop from a state in which the inspector inspects
    exactly when the camera holds a product present (as at start-up), the
    two stay in step after any number of passes; every pass reports
    [stateChanged] exactly when presence detection raised an edge and
    [inspectionComplete] exactly when it raised [justLeft]. *)
Theorem loop_in_step (fs : list App.Frame) (a : App.t) :
  synced a ->
  synced (afterFrames fs a) /\ Forall reportsEdges (outputs fs a).
Proof.
  revert a. induction fs as [|f fs IH]; intros a Hs.
  - split; [exact Hs | constructor].
  - unfold afterFrames, outputs. cbn [App.processFrames]. rewrite run_bind.
    destruct (pass_synced f a Hs) as (Hs' & Ho & _). cbv zeta in Hs', Ho.
    destruct (runState (App.processFrame f) a) as [o a']. cbn [fst snd] in *.
    rewrite run_bind. destruct (IH a' Hs') as [IH1 IH2].
    unfold afterFrames, outputs in IH1, IH2.
    destruct (runState (App.processFrames fs) a') as [os a'']. cbn [fst snd] in *.
    split; [exact IH1 | constructor; assumption].
Qed.

(** A product appears, stays for two quiet frames, then the camera sees
    a sample frame again. *)
Definition demoFrames : list App.Frame :=
  map (fun v => {| App.video := v; App.clock := 0; App.predicted := None |})
      [ {| readyState := 4; frame := repeat 0%Z 1600 |};
        {| readyState := 4; frame := repeat 255%Z 1600 |};
        {| readyState := 4; frame := repeat 255%Z 1600 |} ].

Definition startedApp : App.t :=
  {| App.cameraManager := started CameraManager.new; App.inspector := Inspector.new |}.

Lemma loop_in_step_witness :
  synced (afterFrames demoFrames startedApp) /\
  Forall reportsEdges (outputs demoFrames startedApp) /\
  state (App.inspector (afterFrames demoFrames startedApp)) = inspecting.
Proof.
  destruct (loop_in_step demoFrames startedApp) as [H1 H2].
  - reflexivity.
  - split; [exact H1|]. split; [exact H2|]. vm_compute. reflexivity.
Defined.

End AppProperties.

(** * Temporal properties of presence detection *)

Module PresenceTemporal.

Import CameraManager PresenceProperties.

(** Edges in a run of results alternate, given whether a product is
    present at the start: [justEntered] only while absent, [justLeft]
    only while present. *)
Fixpoint alternate (present : bool) (rs : list PresenceSignal) : bool :=
  match rs with
  | [] => true
  | r :: rest =>
      if justEntered r then negb present && negb (justLeft r) && alternate true rest
      else if justLeft r then present && alternate false rest
      else alternate present rest
  end.

(** Over any sequence of calls, from any state, the edges alternate:
    between two [justEntered] there is a [justLeft], and conversely. *)
Theorem edges_alternate (vs : list Video) : forall c,
  alternate (_productPresent c) (results vs c) = true.
Proof.
  induction vs as [|v vs IH]; intros c.
  - reflexivity.
  - rewrite detectAll_results. cbn [alternate].
    destruct (AppProperties.edges_are_changes v c) as [He Hl].
    specialize (IH (after v c)).
    rewrite He, Hl.
    destruct (_productPresent c), (_productPresent (after v c)); cbn; exact IH.
Qed.

(** The calls a product has already spent towards leaving. *)
Definition spent (c : t) : nat :=
  if _productPresent c then _exitFrameCount c else 0.

Lemma spent_step v c :
  spent (after v c) <= S (spent c) /\
  _exitFrameRequired (after v c) = _exitFrameRequired c /\
  (justLeft (result v c) = true -> _exitFrameRequired c <= S (spent c)) /\
  (justEntered (result v c) = true -> spent (after v c) = 0).
Proof.
  unfold spent, result, after, detectProductPresence, debounce.
  destruct c as [act prev mt pt cnt req pres]; cbn.
  destruct (negb act || (readyState v <? 2)%Z); cbn.
  - destruct pres; repeat split; intros; lia || discriminate.
  - destruct prev as [prev|]; cbn.
    + destruct (hasMotion _ _ _); cbn.
      * destruct pres; cbn; repeat split; intros; lia || discriminate.
      * destruct pres; cbn; [|repeat split; intros; lia || discriminate].
        destruct (Nat.leb_spec req (S cnt)); cbn;
          repeat split; intros; lia || discriminate.
    + destruct pres; repeat split; intros; lia || discriminate.
Qed.

Lemma leave_not_before vs : forall c j r,
  nth_error (results vs c) j = Some r -> justLeft r = true ->
  _exitFrameRequired c <= spent c + S j.
Proof.
  induction vs as [|v vs IH]; intros c j r Hj Hl.
  - destruct j; discriminate.
  - rewrite detectAll_results in Hj.
    destruct (spent_step v c) as (Hs & Hq & Hleft & _).
    destruct j as [|j]; cbn in Hj.
    + injection Hj as <-. specialize (Hleft Hl). lia.
    + specialize (IH (after v c) j r Hj Hl). lia.
Qed.

(** A product that entered on call [i] does not leave before
    [_exitFrameRequired] further calls: whatever the frames, a
    [justLeft] on a later call [j] has [i + _exitFrameRequired <= j]. *)
Theorem presence_lasts (vs : list Video) : forall c i j ri rj,
  nth_error (results vs c) i = Some ri -> justEntered ri = true ->
  nth_error (results vs c) j = Some rj -> justLeft rj = true ->
  i < j ->
  i + _exitFrameRequired c <= j.
Proof.
  induction vs as [|v vs IH]; intros c i j ri rj Hi He Hj Hl Hij.
  - destruct i; discriminate.
  - rewrite detectAll_results in Hi, Hj.
    destruct (spent_step v c) as (_ & Hq & _ & Hent).
    destruct j as [|j]; [lia|]. cbn in Hj.
    destruct i as [|i]; cbn in Hi.
    + injection Hi as <-. specialize (Hent He).
      pose proof (leave_not_before vs (after v c) j rj Hj Hl). lia.
    + pose proof (IH (after v c) i j ri rj Hi He Hj Hl). lia.
Qed.

(** A product enters on the second frame and the scene then stays still. *)
Definition visit : list Video :=
  {| readyState := 4; frame := repeat 0%Z 1600 |}
  :: repeat {| readyState := 4; frame := repeat 255%Z 1600 |} 16.

Lemma presence_lasts_witness :
  nth_error (results visit (started new)) 1 =
    Some {| present := true; justEntered := true; justLeft := false |} /\
  nth_error (results visit (started new)) 16 =
    Some {| present := false; justEntered := false; justLeft := true |} /\
  1 + _exitFrameRequired (started new) <= 16.
Proof.
  assert (H1 : nth_error (results visit (started new)) 1 =
               Some {| present := true; justEntered := true; justLeft := false |})
    by (vm_compute; reflexivity).
  assert (H16 : nth_error (results visit (started new)) 16 =
                Some {| present := false; justEntered := false; justLeft := true |})
    by (vm_compute; reflexivity).
  split; [exact H1|]. split; [exact H16|].
  apply (presence_lasts visit (started new) 1 16 _ _ H1 eq_refl H16 eq_refl).
  lia.
Defined.

(** A call that compares two frames and finds motion. *)
Definition motionCall (c : t) (v : Video) : bool :=
  isActive c && negb (readyState v <? 2)%Z &&
  match _prevFrame c with
  | Some prev => hasMotion c (frame v) prev
  | None => false
  end.

Lemma motion_resets c v :
  motionCall c v = true ->
  result v c =
    {| present := true; justEntered := negb (_productPresent c); justLeft := false |} /\
  _productPresent (after v c) = true /\
  _exitFrameCount (after v c) = 0 /\
  _exitFrameRequired (after v c) = _exitFrameRequired c.
Proof.
  unfold motionCall, result, after, detectProductPresence.
  destruct c as [act prev mt pt cnt req pres]; cbn.
  destruct act; [|discriminate]. cbn.
  destruct (readyState v <? 2)%Z; [discriminate|]. cbn.
  destruct prev as [prev|]; [|discriminate].
  intros ->. cbn. destruct pres; cbn; auto.
Qed.

(** Motion restarts the exit countdown: after a call that finds motion,
    whatever the exit counter was, the product is present and it takes
    [_exitFrameRequired] consecutive no-motion calls to leave; the first
    [_exitFrameRequired - 1] of them still report [present]. *)
Theorem motion_restarts_countdown (c : t) (v : Video) (vs : list Video) :
  motionCall c v = true -> 0 < _exitFrameRequired c ->
  quietRun (after v c) vs = true ->
  present (result v c) = true /\ justLeft (result v c) = false /\
  forall k r, nth_error (results vs (after v c)) k = Some r ->
    (S k < _exitFrameRequired c -> present r = true /\ justLeft r = false) /\
    (S k = _exitFrameRequired c -> present r = false /\ justLeft r = true) /\
    (_exitFrameRequired c < S k -> present r = false /\ justLeft r = false).
Proof.
  intros Hm Hreq Hq.
  destruct (motion_resets c v Hm) as (Hr & Hp & Hc & Hq').
  rewrite Hr. cbn. split; [reflexivity|]. split; [reflexivity|].
  intros k r Hk.
  assert (Hlt : _exitFrameCount (after v c) < _exitFrameRequired (after v c)) by lia.
  pose proof (quietRun_present vs (after v c) Hq Hp Hlt k r Hk) as H.
  rewrite Hc, Hq' in H. cbn in H. tauto.
Qed.

(** A product present for 14 quiet frames, one frame short of leaving. *)
Definition lingering : t :=
  set_exitFrameCount 14 (set_prevFrame (Some (repeat 0%Z 1600)) presentCamera).

Lemma motion_restarts_countdown_witness :
  let v := {| readyState := 4; frame := repeat 255%Z 1600 |} in
  present (result v lingering) = true /\ justLeft (result v lingering) = false /\
  forall k r, nth_error (results (repeat v 15) (after v lingering)) k = Some r ->
    (S k < 15 -> present r = true /\ justLeft r = false) /\
    (S k = 15 -> present r = false /\ justLeft r = true) /\
    (15 < S k -> present r = false /\ justLeft r = false).
Proof.
  apply (motion_restarts_countdown lingering
           {| readyState := 4; frame := repeat 255%Z 1600 |}
           (repeat {| readyState := 4; frame := repeat 255%Z 1600 |} 15)).
  - vm_compute. reflexivity.
  - cbn. lia.
  - vm_compute. reflexivity.
Defined.

End PresenceTemporal.

(** * The motion measure *)

Module MotionMeasure.

Import CameraManager.

(** Two frames show the same colours at the sampled pixels: equal
    lengths, and equal red, green and blue bytes at every index
    [16 k]. *)
Definition sameSamples (f g : ImageData) : Prop :=
  List.length f = List.length g /\
  forall k d, d < 3 -> nth_error f (16 * k + d) = nth_error g (16 * k + d).

Lemma In_sampledIndices i len : In i (sampledIndices len) -> exists k, i = 16 * k.
Proof.
  unfold sampledIndices. rewrite in_map_iff. intros (k & <- & _). exists k. reflexivity.
Qed.

Lemma pixelChanged_samples th curr prev curr' prev' i len :
  sameSamples curr curr' -> sameSamples prev prev' ->
  In i (sampledIndices len) ->
  pixelChanged th curr prev i = pixelChanged th curr' prev' i.
Proof.
  intros [_ Hc] [_ Hp] Hi. apply In_sampledIndices in Hi as [k ->].
  unfold pixelChanged.
  pose proof (Hc k 0) as Hc0. pose proof (Hc k 1) as Hc1. pose proof (Hc k 2) as Hc2.
  pose proof (Hp k 0) as Hp0. pose proof (Hp k 1) as Hp1. pose proof (Hp k 2) as Hp2.
  rewrite Nat.add_0_r in Hc0, Hp0.
  rewrite Hc0, Hc1, Hc2, Hp0, Hp1, Hp2 by lia. reflexivity.
Qed.

(** Motion detection reads nothing but the red, green and blue bytes of
    every fourth pixel: frames that agree there give the same answer,
    whatever the alpha bytes and the pixels in between. *)
Theorem hasMotion_sampled_only (c : t) (curr prev curr' prev' : ImageData) :
  sameSamples curr curr' -> sameSamples prev prev' ->
  hasMotion c curr prev = hasMotion c curr' prev'.
Proof.
  intros Hc Hp. unfold hasMotion, changedPixels.
  destruct Hc as [Hlen Hc]. rewrite <- Hlen.
  rewrite (filter_ext_in
             (pixelChanged (_motionThreshold c) curr prev)
             (pixelChanged (_motionThreshold c) curr' prev')).
  - reflexivity.
  - intros i Hi. eapply pixelChanged_samples; eauto. split; assumption.
Qed.

(** Two pixels' worth of samples: the second frame differs from the first
    in an alpha byte and in a pixel that is not sampled. *)
Definition plainFrame : ImageData := repeat 10%Z 32.

Definition retouchedFrame : ImageData :=
  [10; 10; 10; 255; 200; 200; 200; 10]%Z ++ repeat 10%Z 24.

Lemma sameSamples_retouched : sameSamples plainFrame retouchedFrame.
Proof.
  split; [reflexivity|]. intros k d Hd.
  destruct (Nat.lt_ge_cases k 2) as [Hk|Hk].
  - destruct k as [|[|k]]; [| |lia];
      destruct d as [|[|[|d]]]; try lia; reflexivity.
  - transitivity (@None Z); [|symmetry]; apply nth_error_None; cbn; lia.
Qed.

Lemma hasMotion_sampled_only_witness :
  hasMotion (started new) plainFrame plainFrame =
  hasMotion (started new) retouchedFrame plainFrame.
Proof.
  apply (hasMotion_sampled_only (started new) plainFrame plainFrame retouchedFrame plainFrame).
  - exact sameSamples_retouched.
  - split; reflexivity.
Defined.

(** The sum of the red, green and blue differences at index [i]; [None]
    when a read falls outside a frame. *)
Definition rgbDelta (curr prev : ImageData) (i : nat) : option Z :=
  match nth_error curr i, nth_error prev i,
        nth_error curr (i + 1), nth_error prev (i + 1),
        nth_error curr (i + 2), nth_error prev (i + 2) with
  | Some cr, Some pr, Some cg, Some pg, Some cb, Some pb =>
      Some (Z.abs (cr - pr) + Z.abs (cg - pg) + Z.abs (cb - pb))%Z
  | _, _, _, _, _, _ => None
  end.

(** The sampled pixels whose colour differences sum to more than 75. *)
Definition changedSamples (curr prev : ImageData) : nat :=
  List.length
    (filter (fun i => match rgbDelta curr prev i with
                      | Some d => (75 <? d)%Z
                      | None => false
                      end)
            (sampledIndices (List.length curr))).

Definition bytes (f : ImageData) : Prop := Forall (fun b => (0 <= b <= 255)%Z) f.

(** The frame has the working size of 160 x 120 pixels. *)
Definition workingSize (f : ImageData) : Prop := Z.of_nat (List.length f) = (w * h * 4)%Z.

(** On sums of three byte differences, the double-precision test
    [sum / 3 > 25] is the integer test [sum > 75]. *)
Lemma third_rule (d : Z) :
  (0 <= d <= 765)%Z -> JsNumber.gt (JsNumber.ofZ d / 3) 25 = (75 <? d)%Z.
Proof.
  intros Hd.
  assert (Hall : forallb (fun n => Bool.eqb (JsNumber.gt (JsNumber.ofZ (Z.of_nat n) / 3) 25)
                                            (75 <? Z.of_nat n)%Z)
                         (seq 0 766) = true) by (vm_compute; reflexivity).
  rewrite forallb_forall in Hall.
  specialize (Hall (Z.to_nat d)). rewrite Z2Nat.id in Hall by lia.
  apply eqb_prop, Hall, in_seq. lia.
Qed.

(** On counts up to 4800, the test [count / (19200 / 4) > 0.02] is the
    integer test [count > 96]. *)
Lemma ratio_rule (k : nat) :
  k <= 4800 ->
  JsNumber.gt (JsNumber.ofNat k / (JsNumber.ofZ (w * h) / 4)) 0.02 = (96 <? k).
Proof.
  intros Hk.
  assert (Hall : forallb (fun n => Bool.eqb
                            (JsNumber.gt (JsNumber.ofNat n / (JsNumber.ofZ (w * h) / 4)) 0.02)
                            (96 <? n))
                         (seq 0 4801) = true) by (vm_compute; reflexivity).
  rewrite forallb_forall in Hall.
  apply eqb_prop, Hall, in_seq. lia.
Qed.

Lemma rgbDelta_bound curr prev i d :
  bytes curr -> bytes prev -> rgbDelta curr prev i = Some d -> (0 <= d <= 765)%Z.
Proof.
  unfold bytes, rgbDelta. rewrite !Forall_forall. intros Hc Hp.
  destruct (nth_error curr i) as [cr|] eqn:E1; [|discriminate].
  destruct (nth_error prev i) as [pr|] eqn:E2; [|discriminate].
  destruct (nth_error curr (i + 1)) as [cg|] eqn:E3; [|discriminate].
  destruct (nth_error prev (i + 1)) as [pg|] eqn:E4; [|discriminate].
  destruct (nth_error curr (i + 2)) as [cb|] eqn:E5; [|discriminate].
  destruct (nth_error prev (i + 2)) as [pb|] eqn:E6; [|discriminate].
  intros [= <-].
  apply nth_error_In in E1, E2, E3, E4, E5, E6.
  apply Hc in E1, E3, E5. apply Hp in E2, E4, E6. lia.
Qed.

Lemma pixelChanged_integer curr prev i :
  bytes curr -> bytes prev ->
  pixelChanged 25 curr prev i =
    match rgbDelta curr prev i with
    | Some d => (75 <? d)%Z
    | None => false
    end.
Proof.
  intros Hc Hp. pose proof (rgbDelta_bound curr prev i) as Hb.
  unfold pixelChanged, rgbDelta in *.
  destruct (nth_error curr i) as [cr|]; [|reflexivity].
  destruct (nth_error prev i) as [pr|]; [|reflexivity].
  destruct (nth_error curr (i + 1)) as [cg|]; [|reflexivity].
  destruct (nth_error prev (i + 1)) as [pg|]; [|reflexivity].
  destruct (nth_error curr (i + 2)) as [cb|]; [|reflexivity].
  destruct (nth_error prev (i + 2)) as [pb|]; [|reflexivity].
  apply third_rule. eapply Hb; eauto.
Qed.

(** With the constructor's thresholds, on byte frames of the working
    size, motion is reported exactly when more than 96 of the 4800
    sampled pixels have colour differences that sum to more than 75: the
    double-precision divisions and comparisons of the source amount to
    these integer tests. *)
Theorem hasMotion_integer (c : t) (curr prev : ImageData) :
  _motionThreshold c = 25%float -> _presenceThreshold c = 0.02%float ->
  bytes curr -> bytes prev -> workingSize curr ->
  hasMotion c curr prev = (96 <? changedSamples curr prev) /\
  changedSamples curr prev <= 4800.
Proof.
  intros Hm Ht Hc Hp Hsize.
  assert (Hcount : changedPixels 25 curr prev = changedSamples curr prev).
  { unfold changedPixels, changedSamples. f_equal. apply filter_ext.
    intros i. apply pixelChanged_integer; assumption. }
  assert (Hle : changedSamples curr prev <= 4800).
  { unfold changedSamples. etransitivity; [apply filter_length_le|].
    unfold sampledIndices. rewrite length_map, length_seq.
    unfold workingSize in Hsize. change (w * h * 4)%Z with 76800%Z in Hsize.
    apply Nat.lt_succ_r, Nat.Div0.div_lt_upper_bound. lia. }
  split; [|exact Hle].
  unfold hasMotion. rewrite Hm, Ht, Hcount. apply ratio_rule. exact Hle.
Qed.

(** A white and a black frame of the working size. *)
Definition workingFrame (b : Z) : ImageData := repeat b (Z.to_nat (w * h * 4)).

Lemma workingFrame_ok b : (0 <= b <= 255)%Z -> bytes (workingFrame b) /\ workingSize (workingFrame b).
Proof.
  intros Hb. split.
  - apply Forall_forall. intros x Hx. apply repeat_spec in Hx. subst x. exact Hb.
  - unfold workingSize, workingFrame. rewrite repeat_length, Z2Nat.id; [reflexivity|].
    unfold w, h. lia.
Qed.

Lemma hasMotion_integer_witness :
  hasMotion (started new) (workingFrame 255) (workingFrame 0) =
    (96 <? changedSamples (workingFrame 255) (workingFrame 0)) /\
  changedSamples (workingFrame 255) (workingFrame 0) <= 4800.
Proof.
  apply (hasMotion_integer (started new) (workingFrame 255) (workingFrame 0)).
  - reflexivity.
  - reflexivity.
  - apply workingFrame_ok. lia.
  - apply workingFrame_ok. lia.
  - apply workingFrame_ok. lia.
Defined.

End MotionMeasure.

(** * Aggregation over arbitrary labels *)

Module AggregationInherited.

Import JsObject JsObjectFacts Inspector AggregationProperties.

#[local] Arguments inherited : simpl never.

(** The samples whose label names no member of [Object.prototype]. *)
Definition plainPart (buffer : list Prediction.t) : list Prediction.t :=
  filter (fun p => negb (inherited (Prediction.label p))) buffer.

(** The properties of an object under keys that name no such member. *)
Definition plainProps {A : Type} (o : JsObject.t A) : JsObject.t A :=
  filter (fun e => negb (inherited (fst e))) o.

(** Properties under inherited names hold no number. *)
Definition junk {A : Type} (o : JsObject.t A) : Prop :=
  forall k v, In (k, v) o -> inherited k = true -> v = NotNum.

Lemma getOwn_plainProps {A : Type} (o : JsObject.t A) k :
  inherited k = false -> getOwn (plainProps o) k = getOwn o k.
Proof.
  intros Hk. unfold plainProps. induction o as [|[k' v'] rest IH]; cbn; [reflexivity|].
  destruct (String.eqb k k') eqn:E.
  - apply String.eqb_eq in E. subst k'. rewrite Hk. cbn. rewrite String.eqb_refl. reflexivity.
  - destruct (inherited k'); cbn; [exact IH|]. rewrite E. exact IH.
Qed.

Lemma plainProps_setOwn_keep {A : Type} (o : JsObject.t A) k v :
  inherited k = false -> plainProps (setOwn o k v) = setOwn (plainProps o) k v.
Proof.
  intros Hk. unfold plainProps. induction o as [|[k' v'] rest IH]; cbn.
  - rewrite Hk. reflexivity.
  - destruct (String.eqb k k') eqn:E; cbn.
    + apply String.eqb_eq in E. subst k'. rewrite Hk. cbn. rewrite String.eqb_refl. reflexivity.
    + destruct (inherited k'); cbn; [exact IH|]. rewrite E, IH. reflexivity.
Qed.

Lemma plainProps_setOwn_drop {A : Type} (o : JsObject.t A) k v :
  inherited k = true -> plainProps (setOwn o k v) = plainProps o.
Proof.
  intros Hk. unfold plainProps. induction o as [|[k' v'] rest IH]; cbn.
  - rewrite Hk. reflexivity.
  - destruct (String.eqb k k') eqn:E; cbn.
    + apply String.eqb_eq in E. subst k'. rewrite Hk. reflexivity.
    + rewrite IH. reflexivity.
Qed.

Lemma In_setOwn {A : Type} (o : JsObject.t A) k v e :
  In e (setOwn o k v) -> e = (k, v) \/ In e o.
Proof.
  induction o as [|[k' v'] rest IH]; cbn.
  - intros [<-|[]]. auto.
  - destruct (String.eqb k k') eqn:E; cbn.
    + apply String.eqb_eq in E. subst k'. intros [<-|H]; auto.
    + intros [<-|H]; auto. destruct (IH H); auto.
Qed.

Lemma junk_setOwn {A : Type} (o : JsObject.t A) k v :
  junk o -> (inherited k = true -> v = NotNum) -> junk (setOwn o k v).
Proof.
  intros Hj Hv k' v' Hin Hk'. apply In_setOwn in Hin as [[= -> ->] | Hin]; eauto.
Qed.

(** A read under an inherited name never yields a number. *)
Lemma get_inherited {A : Type} (o : JsObject.t A) k :
  junk o -> inherited k = true -> JsObject.get o k = Some NotNum.
Proof.
  intros Hj Hk. unfold JsObject.get. rewrite Hk.
  destruct (getOwn o k) as [v|] eqn:E; [|reflexivity].
  apply getOwn_Some_In in E. rewrite (Hj _ _ E Hk). reflexivity.
Qed.

(** The tally of a buffer is, under keys that are not inherited names,
    the tally of its plain part; under inherited names it holds no
    number. *)
Lemma tally_plainPart buffer :
  plainProps (fst (tally buffer)) = fst (tally (plainPart buffer)) /\
  plainProps (snd (tally buffer)) = snd (tally (plainPart buffer)) /\
  junk (fst (tally buffer)) /\ junk (snd (tally buffer)).
Proof.
  induction buffer as [|p buffer IH] using rev_ind.
  - cbn. repeat split; intros ? ? [].
  - destruct IH as (Hv & Hs & Jv & Js).
    unfold plainPart in *. rewrite filter_app, !tally_snoc. cbn [filter].
    destruct (tally buffer) as [votes sums]. cbn [fst snd] in *.
    unfold tallyStep at 1 2 3 4. cbn [fst snd].
    destruct (inherited (Prediction.label p)) eqn:Hx; cbn [negb].
    + rewrite app_nil_r, !get_inherited by assumption. cbn [countUp sumUp].
      unfold JsObject.set.
      destruct (String.eqb (Prediction.label p) "__proto__").
      * auto.
      * rewrite !plainProps_setOwn_drop by exact Hx.
        repeat split; try assumption; apply junk_setOwn; auto.
    + rewrite tally_snoc.
      destruct (tally (filter _ buffer)) as [votes' sums']. cbn [fst snd] in *.
      unfold tallyStep. cbn [fst snd].
      rewrite !get_plain, !set_plain by exact Hx.
      rewrite !plainProps_setOwn_keep by exact Hx.
      rewrite <- Hv, <- Hs, !getOwn_plainProps by exact Hx.
      repeat split; try reflexivity; apply junk_setOwn; auto; congruence.
Qed.

Lemma inherited_not_index k : inherited k = true -> arrayIndex k = None.
Proof.
  intros H. apply existsb_eqb_In in H. cbn in H.
  repeat (destruct H as [<-|H]; [reflexivity|]). contradiction.
Qed.

Lemma indexed_plainProps {A : Type} (o : JsObject.t A) : indexed (plainProps o) = indexed o.
Proof.
  unfold plainProps. induction o as [|e rest IH]; cbn; [reflexivity|].
  destruct (inherited (fst e)) eqn:He; cbn.
  - rewrite (inherited_not_index _ He). exact IH.
  - rewrite IH. reflexivity.
Qed.

Lemma named_plainProps {A : Type} (o : JsObject.t A) : named (plainProps o) = plainProps (named o).
Proof.
  unfold plainProps, named. induction o as [|e rest IH]; cbn; [reflexivity|].
  destruct (inherited (fst e)) eqn:He, (arrayIndex (fst e)) eqn:Hi; cbn;
    rewrite ?He, ?Hi; cbn; rewrite IH; reflexivity.
Qed.

(** The vote scan passes over properties that hold no number. *)
Lemma scan_skips_junk (l : JsObject.t nat) : forall b,
  junk l -> fold_left bestStep (plainProps l) b = fold_left bestStep l b.
Proof.
  unfold plainProps. induction l as [|[k v] rest IH]; intros b Hj; cbn; [reflexivity|].
  assert (Hrest : junk rest) by (intros k' v' Hin; apply Hj; right; exact Hin).
  destruct (inherited k) eqn:Hk; cbn.
  - rewrite (Hj k v (or_introl eq_refl) Hk). cbn. apply IH, Hrest.
  - apply IH, Hrest.
Qed.

Lemma best_plainProps (votes : JsObject.t nat) :
  junk votes -> best (plainProps votes) = best votes.
Proof.
  intros Hj. unfold best, entries.
  rewrite indexed_plainProps, named_plainProps, !fold_left_app.
  apply scan_skips_junk. intros k v Hin. apply Hj.
  unfold named in Hin. apply filter_In in Hin. tauto.
Qed.

(** The label the scan ends with names no member of [Object.prototype]. *)
Lemma best_not_inherited (votes : JsObject.t nat) :
  junk votes -> inherited (fst (best votes)) = false.
Proof.
  intros Hj. unfold best.
  destruct (fold_left bestStep (entries votes) ("ok", 0)) as [w n] eqn:Hr.
  destruct (scan_spec _ _ _ _ Hr) as [[Heq _] | (xs & ys & Hes & _)]; cbn [fst snd] in *.
  - injection Heq as -> _. reflexivity.
  - destruct (inherited w) eqn:Hi; [|reflexivity].
    assert (Hin : In (w, Num n) (entries votes)) by (rewrite Hes; apply in_elt).
    apply (proj1 (In_entries _ _)) in Hin. discriminate (Hj _ _ Hin Hi).
Qed.

Lemma aggregate_plainPart (buffer : list Prediction.t) :
  buffer <> [] ->
  aggregate buffer =
    match plainPart buffer with
    | [] => Some (Verdict.make "ok" PrimFloat.nan)
    | _ :: _ => aggregate (plainPart buffer)
    end.
Proof.
  intros Hne.
  destruct (tally_plainPart buffer) as (Hv & Hs & Jv & Js).
  pose proof (best_plainProps _ Jv) as Hbest.
  pose proof (best_not_inherited _ Jv) as Hw.
  assert (Hagg : aggregate buffer =
            Some (let (votes, sums) := tally (plainPart buffer) in
                  Verdict.make (fst (best votes))
                    (average (JsObject.get sums (fst (best votes)))
                             (JsObject.get votes (fst (best votes)))))).
  { unfold aggregate. destruct buffer as [|p buffer]; [contradiction|].
    destruct (tally (p :: buffer)) as [votes sums].
    destruct (tally (plainPart (p :: buffer))) as [votes' sums'].
    cbn [fst snd] in *. subst votes' sums'. rewrite Hbest.
    rewrite !get_plain by exact Hw.
    rewrite !getOwn_plainProps by exact Hw. reflexivity. }
  rewrite Hagg. destruct (plainPart buffer) as [|q qs] eqn:Hpp.
  - reflexivity.
  - unfold aggregate. destruct (tally (q :: qs)) as [votes' sums']. reflexivity.
Qed.

(** Samples whose label names a member of [Object.prototype] take no
    part in the vote: the verdict of a non-empty buffer is the verdict of
    its other samples, and when there are no others it is the default
    label ["ok"] with a [NaN] confidence. *)
Theorem aggregate_ignores_inherited (buffer : list Prediction.t) :
  buffer <> [] ->
  aggregate buffer =
    match plainPart buffer with
    | [] => Some (Verdict.make "ok" PrimFloat.nan)
    | _ :: _ => aggregate (plainPart buffer)
    end.
Proof. exact (aggregate_plainPart buffer). Qed.

Definition sample := InspectorProperties.sample.

Lemma aggregate_ignores_inherited_witness :
  aggregate [sample "constructor" 0.9; sample "dent" 0.5; sample "toString" 0.9;
             sample "__proto__" 0.7] =
  aggregate [sample "dent" 0.5].
Proof.
  apply (aggregate_ignores_inherited
           [sample "constructor" 0.9; sample "dent" 0.5; sample "toString" 0.9;
            sample "__proto__" 0.7]).
  discriminate.
Defined.

Lemma plain_plainPart buffer : plain (plainPart buffer).
Proof.
  unfold plain, plainPart. apply Forall_forall. intros p Hp.
  apply filter_In in Hp as [_ Hp]. apply negb_true_iff. exact Hp.
Qed.

Lemma votesFor_plainPart l buffer :
  inherited l = false -> votesFor l (plainPart buffer) = votesFor l buffer.
Proof.
  intros Hl. unfold votesFor, bearing, plainPart. f_equal.
  induction buffer as [|p buffer IH]; cbn; [reflexivity|].
  destruct (String.eqb (Prediction.label p) l) eqn:E.
  - apply String.eqb_eq in E. rewrite E, Hl. cbn. rewrite <- E at 1.
    rewrite String.eqb_refl. f_equal. exact IH.
  - destruct (inherited (Prediction.label p)); cbn; rewrite ?E; exact IH.
Qed.

Lemma In_labels_plainPart l buffer :
  In l (labels (plainPart buffer)) <-> In l (labels buffer) /\ inherited l = false.
Proof.
  unfold labels, plainPart. rewrite !in_map_iff. split.
  - intros (p & <- & Hp). apply filter_In in Hp as [Hp Hi].
    apply negb_true_iff in Hi. split; [exists p; auto | exact Hi].
  - intros [(p & <- & Hp) Hi]. exists p. split; [reflexivity|].
    apply filter_In. split; [exact Hp|]. apply negb_true_iff. exact Hi.
Qed.

(** Whatever the buffer holds, a verdict's label never names a member of
    [Object.prototype]; it is a label of the buffer, or it is the default
    ["ok"] returned because every buffered label is such a name. *)
Theorem verdict_label_sound (buffer : list Prediction.t) (v : Verdict.t) :
  aggregate buffer = Some v ->
  inherited (Verdict.label v) = false /\
  (In (Verdict.label v) (labels buffer) \/
   Verdict.label v = "ok" /\ plainPart buffer = []).
Proof.
  intros Hv. destruct buffer as [|p0 buffer]; [discriminate|].
  rewrite aggregate_plainPart in Hv by discriminate.
  destruct (plainPart (p0 :: buffer)) as [|q qs] eqn:Hpp.
  - injection Hv as <-. cbn. split; [reflexivity | right; auto].
  - assert (Hne : q :: qs <> []) by discriminate.
    assert (Hpl : plain (q :: qs)) by (rewrite <- Hpp; apply plain_plainPart).
    destruct (aggregate_plain (q :: qs) Hne Hpl) as (w & Hbest & Hagg).
    destruct (winner_spec (q :: qs) Hne Hpl _ _ Hbest) as (_ & Hpos & _).
    rewrite Hagg in Hv. injection Hv as <-. cbn [Verdict.make Verdict.label].
    apply votesFor_pos in Hpos. rewrite <- Hpp in Hpos.
    apply In_labels_plainPart in Hpos as [Hin Hi]. auto.
Qed.

Lemma verdict_label_sound_witness :
  inherited "dent" = false /\
  (In "dent" (labels [sample "constructor" 0.9; sample "dent" 0.5]) \/
   "dent" = "ok" /\ plainPart [sample "constructor" 0.9; sample "dent" 0.5] = []).
Proof.
  apply (verdict_label_sound [sample "constructor" 0.9; sample "dent" 0.5]
           (Verdict.make "dent" 0.5)).
  reflexivity.
Defined.

(** A label that names no member of [Object.prototype] and has strictly
    more votes than every other such label is the verdict's label,
    whatever the order of the samples and whatever the labels are. *)
Theorem plurality_wins (buffer : list Prediction.t) (l : string) :
  inherited l = false ->
  (forall l', inherited l' = false -> l' <> l ->
     votesFor l' buffer < votesFor l buffer) ->
  exists v, aggregate buffer = Some v /\ Verdict.label v = l.
Proof.
  intros Hl Hmore.
  assert (Hpos : 0 < votesFor l buffer).
  { destruct (string_dec l "ok") as [->|Hok].
    - assert (Ha : "a" <> "ok") by discriminate.
      specialize (Hmore "a" eq_refl Ha). lia.
    - specialize (Hmore "ok" eq_refl (not_eq_sym Hok)). lia. }
  assert (Hne : buffer <> []) by (intros ->; cbn in Hpos; lia).
  rewrite aggregate_plainPart by exact Hne.
  rewrite <- (votesFor_plainPart l buffer Hl) in Hpos.
  destruct (plainPart buffer) as [|q qs] eqn:Hpp; [cbn in Hpos; lia|].
  assert (Hne' : q :: qs <> []) by discriminate.
  assert (Hpl : plain (q :: qs)) by (rewrite <- Hpp; apply plain_plainPart).
  destruct (aggregate_plain (q :: qs) Hne' Hpl) as (w & Hbest & Hagg).
  destruct (winner_spec (q :: qs) Hne' Hpl _ _ Hbest) as (_ & Hw & Hmax & _).
  exists (Verdict.make w (runningSum (confidencesOf w (q :: qs))
                          / JsNumber.ofNat (votesFor w (q :: qs)))%float).
  split; [exact Hagg|]. cbn [Verdict.make Verdict.label].
  destruct (string_dec w l) as [Heq|Hneq]; [exact Heq | exfalso].
  apply votesFor_pos in Hw. rewrite <- Hpp in Hw, Hmax.
  apply In_labels_plainPart in Hw as [_ Hwi].
  specialize (Hmore w Hwi Hneq). specialize (Hmax l).
  rewrite !votesFor_plainPart in Hmax by assumption. lia.
Qed.

Lemma plurality_wins_witness :
  exists v,
    aggregate [sample "1" 0.5; sample "dent" 0.5; sample "toString" 0.9;
               sample "dent" 0.7; sample "toString" 0.9; sample "toString" 0.9] = Some v /\
    Verdict.label v = "dent".
Proof.
  apply (plurality_wins
           [sample "1" 0.5; sample "dent" 0.5; sample "toString" 0.9;
            sample "dent" 0.7; sample "toString" 0.9; sample "toString" 0.9] "dent").
  - reflexivity.
  - intros l' Hplain Hneq. unfold votesFor, bearing. cbn -[String.eqb].
    rewrite !String.eqb_refl. cbn -[String.eqb].
    destruct (String.eqb "1" l') eqn:E1; cbn -[String.eqb].
    + apply String.eqb_eq in E1. subst l'. cbn. lia.
    + destruct (String.eqb "dent" l') eqn:E2; cbn -[String.eqb].
      * apply String.eqb_eq in E2. congruence.
      * destruct (String.eqb "toString" l') eqn:E3; cbn; [|lia].
        apply String.eqb_eq in E3. subst l'. discriminate Hplain.
Defined.

End AggregationInherited.

(** * Properties of the statistics *)

From Stdlib Require Import Permutation Sorted.

Module StatsProperties.

Import JsObject JsObjectFacts StorageManager InspectorStats.

#[local] Arguments inherited : simpl never.

(** The inspections that are not ok, and the categories they count
    under. *)
Definition notOk (l : list InspectionRecord) : list InspectionRecord :=
  filter (fun r => negb (String.eqb (status r) "ok")) l.

Definition categoryKeys (l : list InspectionRecord) : list string :=
  map (fun r => orUnknown (defectType r)) (notOk l).

(** What [categories[k]] reads after [n] inspections were counted under
    [k], starting from an empty object. *)
Definition countRead (k : string) (n : nat) : option (value nat) :=
  if inherited k then Some NotNum
  else if n =? 0 then None else Some (Num n).

(** A write followed by a read. *)
Lemma get_set (o : JsObject.t nat) k v k' :
  JsObject.get (JsObject.set o k v) k' =
    if String.eqb k' k && negb (String.eqb k "__proto__") then Some v
    else JsObject.get o k'.
Proof.
  unfold JsObject.get, JsObject.set.
  destruct (String.eqb k "__proto__") eqn:Hp; cbn.
  - rewrite andb_false_r. reflexivity.
  - rewrite andb_true_r, getOwn_setOwn.
    destruct (String.eqb k' k); reflexivity.
Qed.

Lemma fold_countInspection l : forall a b o,
  fold_left countInspection l (a, b, o) =
    (a + List.length (filter (fun r => String.eqb (status r) "ok") l),
     b + List.length (notOk l),
     fold_left countCategory (categoryKeys l) o).
Proof.
  unfold categoryKeys, notOk.
  induction l as [|r l IH]; intros a b o; cbn [fold_left filter].
  - cbn. rewrite !Nat.add_0_r. reflexivity.
  - unfold countInspection at 2.
    destruct (String.eqb (status r) "ok"); cbn [negb List.length map fold_left];
      rewrite IH; f_equal; f_equal; lia.
Qed.

Lemma get_counted (ks : list string) (k : string) :
  JsObject.get (fold_left countCategory ks JsObject.empty) k =
    countRead k (count_occ string_dec ks k).
Proof.
  unfold countRead. induction ks as [|x ks IH] using rev_ind.
  - cbn. unfold JsObject.get. cbn. destruct (inherited k); reflexivity.
  - rewrite fold_left_app, count_occ_app. cbn [fold_left count_occ].
    unfold countCategory at 1. rewrite get_set.
    destruct (String.eqb k x) eqn:Hkx.
    + apply String.eqb_eq in Hkx. subst x.
      destruct (string_dec k k) as [_|Hn]; [|contradiction].
      destruct (String.eqb k "__proto__") eqn:Hp; cbn [andb negb].
      * rewrite IH. apply String.eqb_eq in Hp. subst k. reflexivity.
      * rewrite IH. destruct (inherited k); [reflexivity|].
        destruct (count_occ string_dec ks k) as [|n]; cbn.
        -- reflexivity.
        -- rewrite Nat.add_1_r. replace (n + 1) with (S n) by lia.
           cbn. reflexivity.
    + cbn [andb]. rewrite IH.
      destruct (string_dec x k) as [->|_]; [rewrite String.eqb_refl in Hkx; discriminate|].
      rewrite Nat.add_0_r. reflexivity.
Qed.

(** Two statistics objects that read the same: equal counters and rate,
    and the same value under every category. *)
Definition agree (a b : Stats) : Prop :=
  total a = total b /\ ok a = ok b /\ defective a = defective b /\
  defectRate a = defectRate b /\
  forall k, JsObject.get (categories a) k = JsObject.get (categories b) k.

Lemma agree_refl a : agree a a.
Proof. unfold agree. auto. Qed.

Lemma agree_trans a b c : agree a b -> agree b c -> agree a c.
Proof.
  unfold agree. intros (H1 & H2 & H3 & H4 & H5) (G1 & G2 & G3 & G4 & G5).
  repeat split; try congruence; intros k; rewrite H5; apply G5.
Qed.

(** The statistics of a list of inspections, by counting. *)
Lemma statsOf_counts l :
  total (statsOf l) = List.length l /\
  ok (statsOf l) = List.length (filter (fun r => String.eqb (status r) "ok") l) /\
  defective (statsOf l) = List.length (notOk l) /\
  defectRate (statsOf l) = rate (List.length (notOk l)) (List.length l) /\
  forall k, JsObject.get (categories (statsOf l)) k =
            countRead k (count_occ string_dec (categoryKeys l) k).
Proof.
  unfold statsOf. rewrite fold_countInspection. cbn.
  repeat split; try reflexivity. intros k. apply get_counted.
Qed.

Lemma filter_perm {A : Type} (f : A -> bool) l l' :
  Permutation l l' -> Permutation (filter f l) (filter f l').
Proof.
  induction 1 as [|x l l' Hp IH|x y l|l l' l'' Hp1 IH1 Hp2 IH2]; cbn.
  - constructor.
  - destruct (f x); [apply perm_skip|]; exact IH.
  - destruct (f x), (f y); first [apply perm_swap | apply Permutation_refl].
  - eapply Permutation_trans; eassumption.
Qed.

Lemma statsOf_perm l l' : Permutation l l' -> agree (statsOf l) (statsOf l').
Proof.
  intros Hp.
  assert (Hok : forall f : InspectionRecord -> bool,
            List.length (filter f l) = List.length (filter f l'))
    by (intros f; apply Permutation_length, filter_perm, Hp).
  assert (Hkeys : Permutation (categoryKeys l) (categoryKeys l'))
    by (unfold categoryKeys, notOk; apply Permutation_map, filter_perm, Hp).
  destruct (statsOf_counts l) as (A1 & A2 & A3 & A4 & A5).
  destruct (statsOf_counts l') as (B1 & B2 & B3 & B4 & B5).
  unfold agree, notOk in *.
  rewrite A1, A2, A3, A4, B1, B2, B3, B4, !Hok, (Permutation_length Hp).
  repeat split. intros k. rewrite A5, B5.
  rewrite (Permutation_count_occ string_dec) in Hkeys. rewrite Hkeys. reflexivity.
Qed.

Lemma insertDescending_perm r l : Permutation (insertDescending r l) (r :: l).
Proof.
  induction l as [|x l IH]; cbn.
  - apply Permutation_refl.
  - destruct (timestamp x <=? timestamp r)%Z; [apply Permutation_refl|].
    eapply Permutation_trans; [apply perm_skip, IH | apply perm_swap].
Qed.

Lemma byTimestampDescending_perm store : Permutation (byTimestampDescending store) store.
Proof.
  unfold byTimestampDescending.
  assert (H : forall acc, Permutation (fold_left (fun a r => insertDescending r a) store acc)
                                      (acc ++ store)).
  { induction store as [|r store IH]; intros acc; cbn.
    - rewrite app_nil_r. apply Permutation_refl.
    - eapply Permutation_trans; [apply IH|].
      eapply Permutation_trans; [apply Permutation_app_tail, insertDescending_perm|].
      cbn. apply Permutation_middle. }
  apply (H []).
Qed.

(** While the store holds at most 10000 records, the statistics read
    back from it are those of its records, in any order. *)
Lemma getInspectionStats_counts store :
  List.length store <= 10000 ->
  agree (getInspectionStats store) (statsOf store).
Proof.
  intros Hlen. unfold getInspectionStats, getInspections.
  rewrite firstn_all2.
  - apply statsOf_perm, byTimestampDescending_perm.
  - rewrite (Permutation_length (byTimestampDescending_perm store)). exact Hlen.
Qed.

Lemma agree_sym a b : agree a b -> agree b a.
Proof.
  unfold agree. intros (H1 & H2 & H3 & H4 & H5). repeat split; auto.
Qed.

(** A result whose [isDefective] flag and [status] say the same, as in
    every verdict the inspector builds. *)
Definition coherent (result : Verdict.t) : Prop :=
  Verdict.isDefective result = negb (String.eqb (Verdict.status result) "ok").

Lemma coherent_make l c : coherent (Verdict.make l c).
Proof. unfold coherent, Verdict.make. cbn. destruct (String.eqb l "ok"); reflexivity. Qed.

(** Counting one more inspection is the update [saveInspection] makes. *)
Lemma statsOf_snoc l x result :
  coherent result ->
  status x = Verdict.status result -> defectType x = Verdict.defectType result ->
  statsOf (l ++ [x]) = updateStats result (statsOf l).
Proof.
  unfold coherent. intros Hc Hs Hd.
  unfold statsOf, updateStats. rewrite fold_left_app, length_app.
  destruct (fold_left countInspection l (0, 0, JsObject.empty)) as [[a b] o].
  cbn [fold_left List.length total ok defective categories].
  unfold countInspection. rewrite Hs, Hd, Hc.
  destruct (String.eqb (Verdict.status result) "ok"); reflexivity.
Qed.

Lemma updateStats_agree result a b : agree a b -> agree (updateStats result a) (updateStats result b).
Proof.
  unfold agree, updateStats. intros (H1 & H2 & H3 & H4 & H5). cbn.
  rewrite H1, H2, H3. repeat split.
  intros k. destruct (Verdict.isDefective result); [|apply H5].
  unfold countCategory. rewrite !get_set, !H5. reflexivity.
Qed.

(** The operations on the statistics. *)
Inductive Op :=
| Save (now1 now2 : Z) (accepted : bool) (result : Verdict.t) (thumb : option string)
| ResetStats (cleared : bool)
| Reload.

Definition perform (op : Op) : method InspectorStats.t unit :=
  match op with
  | Save now1 now2 accepted result thumb =>
      saveInspection now1 now2 accepted result thumb ;; ret tt
  | ResetStats cleared => resetStats cleared ;; ret tt
  | Reload => init
  end.

Fixpoint performAll (ops : list Op) : method InspectorStats.t unit :=
  match ops with
  | [] => ret tt
  | op :: rest => perform op ;; performAll rest
  end.

Definition afterOp (op : Op) (w : InspectorStats.t) : InspectorStats.t :=
  snd (runState (perform op) w).
Definition afterOps (ops : list Op) (w : InspectorStats.t) : InspectorStats.t :=
  snd (runState (performAll ops) w).

Lemma afterOps_cons op ops w : afterOps (op :: ops) w = afterOps ops (afterOp op w).
Proof.
  unfold afterOps, afterOp. cbn [performAll]. rewrite run_bind.
  destruct (runState (perform op) w) as [u w']. reflexivity.
Qed.

Definition coherentOp (op : Op) : Prop :=
  match op with
  | Save _ _ _ result _ => coherent result
  | ResetStats cleared => cleared = true
  | Reload => True
  end.

(** The statistics read the same as those recomputed from the store. *)
Definition inStep (w : InspectorStats.t) : Prop :=
  agree (stats w) (getInspectionStats (storage w)).

(** The record [saveInspection] builds. *)
Definition recordOf (now1 now2 : Z) (result : Verdict.t) (thumb : option string)
           (w : InspectorStats.t) : InspectionRecord :=
  {| timestamp := now1;
     status := Verdict.status result;
     defectType := Verdict.defectType result;
     confidence := Verdict.confidence result;
     duration := match currentInspection w with
                 | Some i => (now2 - Inspector.startTime i)%Z
                 | None => 0%Z
                 end;
     thumbnail := thumb |}.

Lemma save_accepted n1 n2 r th w :
  runState (saveInspection n1 n2 true r th) w =
    (Some (recordOf n1 n2 r th w),
     {| currentInspection := currentInspection w;
        stats := updateStats r (stats w);
        storage := storage w ++ [recordOf n1 n2 r th w] |}).
Proof. reflexivity. Qed.

Lemma save_rejected n1 n2 r th w :
  runState (saveInspection n1 n2 false r th) w = (None, w).
Proof. reflexivity. Qed.

Lemma afterOp_storage op w : List.length (storage (afterOp op w)) <= S (List.length (storage w)).
Proof.
  unfold afterOp. destruct op as [n1 n2 [|] r th|[|]|]; cbn [perform].
  - rewrite run_bind, save_accepted. cbn [runState ret Monad_state snd storage].
    rewrite length_app. cbn [List.length]. lia.
  - rewrite run_bind, save_rejected. cbn. lia.
  - cbn. lia.
  - cbn. lia.
  - cbn. lia.
Qed.

Lemma inStep_op op w :
  coherentOp op -> List.length (storage w) < 10000 -> inStep w -> inStep (afterOp op w).
Proof.
  unfold inStep, afterOp. intros Hc Hlen Hin.
  destruct op as [n1 n2 [|] r th|[|]|]; cbn [perform].
  - rewrite run_bind, save_accepted. cbn [runState ret Monad_state snd stats storage].
    eapply agree_trans; [apply updateStats_agree, Hin|].
    eapply agree_trans;
      [apply updateStats_agree, getInspectionStats_counts; lia|].
    rewrite <- (statsOf_snoc (storage w) (recordOf n1 n2 r th w) r Hc eq_refl eq_refl).
    apply agree_sym, getInspectionStats_counts.
    rewrite length_app. cbn [List.length]. lia.
  - rewrite run_bind, save_rejected. exact Hin.
  - apply agree_refl.
  - discriminate Hc.
  - apply agree_refl.
Qed.

(** The statistics kept by [saveInspection] and those [init] would read
    back from the store stay the same, field by field and category by
    category, over any sequence of saves (accepted or rejected), resets
    whose clearing the store carries out and reloads, as long as the saved results are coherent and the store
    holds at most 10000 records. *)
Theorem stats_follow_store (ops : list Op) : forall w,
  Forall coherentOp ops ->
  List.length (storage w) + List.length ops <= 10000 ->
  inStep w -> inStep (afterOps ops w).
Proof.
  induction ops as [|op ops IH]; intros w Hc Hlen Hin.
  - exact Hin.
  - inversion Hc as [|? ? Hop Hrest]; subst. rewrite afterOps_cons.
    cbn [List.length] in Hlen. apply IH.
    + exact Hrest.
    + pose proof (afterOp_storage op w). lia.
    + apply inStep_op; [exact Hop | lia | exact Hin].
Qed.

(** A session: two inspections are saved, one write is refused. *)
Definition session : list Op :=
  [ Reload;
    Save 1000 1000 true (Verdict.make "scratch" 0.75) None;
    Save 2000 2000 false (Verdict.make "ok" 0.9) None;
    Save 3000 3000 true (Verdict.make "ok" 0.9) None ].

Definition emptyWorld : InspectorStats.t :=
  {| currentInspection := None; stats := zeroStats; storage := [] |}.

Lemma stats_follow_store_witness :
  inStep (afterOps session emptyWorld) /\
  total (stats (afterOps session emptyWorld)) = 2 /\
  defective (stats (afterOps session emptyWorld)) = 1.
Proof.
  split.
  - apply (stats_follow_store session emptyWorld).
    + repeat constructor; apply coherent_make.
    + apply Nat.leb_le. vm_compute. reflexivity.
    + apply agree_refl.
  - split; reflexivity.
Defined.

(** The counters of a statistics object fit together: every inspection
    counted is ok or defective, and the rate is the one of the counters. *)
Definition balanced (st : Stats) : Prop :=
  total st = ok st + defective st /\
  defectRate st = rate (defective st) (total st).

Lemma balanced_statsOf l : balanced (statsOf l).
Proof.
  destruct (statsOf_counts l) as (H1 & H2 & H3 & H4 & _).
  unfold balanced, notOk in *. rewrite H1, H2, H3, H4. split; [|reflexivity].
  clear. induction l as [|r l IH]; cbn; [reflexivity|].
  destruct (String.eqb (status r) "ok"); cbn; lia.
Qed.

Lemma balanced_updateStats result st : balanced st -> balanced (updateStats result st).
Proof.
  unfold balanced, updateStats. intros [H _]. cbn.
  split; [|reflexivity]. destruct (Verdict.isDefective result); lia.
Qed.

Lemma balanced_op op w : balanced (stats w) -> balanced (stats (afterOp op w)).
Proof.
  unfold afterOp. intros H. destruct op as [n1 n2 [|] r th|b|]; cbn [perform].
  - rewrite run_bind, save_accepted. cbn [runState ret Monad_state snd stats].
    apply balanced_updateStats, H.
  - rewrite run_bind, save_rejected. exact H.
  - cbn. split; reflexivity.
  - cbn. apply balanced_statsOf.
Qed.

(** Whatever is saved, reset or reloaded, and whether or not the store
    carries the writes out, the statistics stay balanced: the total is
    the number of ok inspections plus the number of defective ones, and
    the defect rate is the one computed from the counters. *)
Theorem counters_add_up (ops : list Op) : forall w,
  balanced (stats w) -> balanced (stats (afterOps ops w)).
Proof.
  induction ops as [|op ops IH]; intros w H.
  - exact H.
  - rewrite afterOps_cons. apply IH, balanced_op, H.
Qed.

Lemma counters_add_up_witness :
  balanced (stats (afterOps (ResetStats false :: session) emptyWorld)).
Proof.
  apply (counters_add_up (ResetStats false :: session) emptyWorld).
  split; reflexivity.
Defined.

(** The statistics restored from the store count at most 10000
    inspections: the total read back is the size of the store, capped at
    10000, and the statistics read back are balanced. *)
Theorem restored_total_capped (store : StorageManager.t) :
  total (getInspectionStats store) = Nat.min 10000 (List.length store) /\
  balanced (getInspectionStats store).
Proof.
  split; [|apply balanced_statsOf].
  unfold getInspectionStats, getInspections.
  destruct (statsOf_counts (firstn 10000 (byTimestampDescending store))) as (H1 & _).
  rewrite H1, length_firstn.
  rewrite (Permutation_length (byTimestampDescending_perm store)). reflexivity.
Qed.

(** A failed clearing: [resetStats] has zeroed the statistics although
    the store still holds its records, so that they differ from what
    [init] reads back. *)
Lemma failed_reset_out_of_step :
  let w := afterOps (session ++ [ResetStats false]) emptyWorld in
  total (stats w) = 0 /\ total (getInspectionStats (storage w)) = 2.
Proof. split; reflexivity. Qed.

(** [notLater a b]: the record [b] is not later than [a]. *)
Definition notLater (a b : InspectionRecord) : Prop := (timestamp b <= timestamp a)%Z.

Lemma insertDescending_sorted r l :
  StronglySorted notLater l -> StronglySorted notLater (insertDescending r l).
Proof.
  induction l as [|x l IH]; intros Hs; cbn.
  - repeat constructor.
  - inversion Hs as [|? ? Hl Hx]; subst.
    destruct (timestamp x <=? timestamp r)%Z eqn:Hc.
    + apply Z.leb_le in Hc. constructor; [exact Hs|].
      constructor; [exact Hc|].
      eapply Forall_impl; [|exact Hx]. unfold notLater. intros y Hy. lia.
    + apply Z.leb_gt in Hc. constructor; [apply IH, Hl|].
      eapply Permutation_Forall; [apply Permutation_sym, insertDescending_perm|].
      constructor; [unfold notLater; lia | exact Hx].
Qed.

Lemma byTimestampDescending_sorted store : StronglySorted notLater (byTimestampDescending store).
Proof.
  unfold byTimestampDescending.
  assert (H : forall acc, StronglySorted notLater acc ->
                          StronglySorted notLater
                            (fold_left (fun a r => insertDescending r a) store acc)).
  { induction store as [|r store IH]; intros acc Hacc; cbn.
    - exact Hacc.
    - apply IH, insertDescending_sorted, Hacc. }
  apply H. constructor.
Qed.

(** [getInspections(limit)] returns the [limit] most recent inspections
    of the store, the most recent first: together with some rest they
    make up the store, every record is at least as recent as all that
    follow it and as all of the rest, and their number is [limit] or the
    size of the store when that is less. *)
Theorem getInspections_most_recent (limit : nat) (store : StorageManager.t) :
  exists rest,
    Permutation (getInspections limit store ++ rest) store /\
    StronglySorted notLater (getInspections limit store ++ rest) /\
    List.length (getInspections limit store) = Nat.min limit (List.length store).
Proof.
  exists (skipn limit (byTimestampDescending store)).
  unfold getInspections. rewrite firstn_skipn, length_firstn.
  rewrite (Permutation_length (byTimestampDescending_perm store)).
  split; [apply byTimestampDescending_perm|].
  split; [apply byTimestampDescending_sorted | reflexivity].
Qed.

(** The record saved for an inspection that [processFrame] has just
    reported complete carries the duration 0: the completing call has
    already dropped the current inspection whose start time the duration
    would be counted from. *)
Theorem saved_duration_zero (c : Inspector.Call) (s : Inspector.t) (w : InspectorStats.t)
        (now1 now2 : Z) (accepted : bool) (result : Verdict.t) (thumb : option string) :
  Inspector.inspectionComplete (InspectorProperties.outcome c s) = true ->
  currentInspection w = Inspector.currentInspection (InspectorProperties.after c s) ->
  fst (runState (saveInspection now1 now2 accepted result thumb) w) =
    if accepted
    then Some {| timestamp := now1;
                 status := Verdict.status result;
                 defectType := Verdict.defectType result;
                 confidence := Verdict.confidence result;
                 duration := 0;
                 thumbnail := thumb |}
    else None.
Proof.
  intros Hdone Hw. rewrite (InspectorInvariants.complete_clears c s Hdone) in Hw.
  destruct accepted; [|reflexivity].
  rewrite save_accepted. cbn [fst]. unfold recordOf. rewrite Hw. reflexivity.
Qed.

(** The call on which the product leaves, and what [saveInspection]
    then finds. *)
Definition exitCall : Inspector.Call :=
  {| Inspector.now := 5000;
     Inspector.prediction := None;
     Inspector.presenceInfo := InspectorProperties.leaving |}.

Definition afterExit : InspectorStats.t :=
  {| currentInspection :=
       Inspector.currentInspection (InspectorProperties.after exitCall InspectorProperties.busy);
     stats := zeroStats;
     storage := [] |}.

Lemma saved_duration_zero_witness :
  Inspector.currentInspection InspectorProperties.busy <> None /\
  option_map duration
    (fst (runState (saveInspection 5000 5001 true (Verdict.make "crack" 0.5) None) afterExit))
  = Some 0%Z.
Proof.
  split; [discriminate|].
  rewrite (saved_duration_zero exitCall InspectorProperties.busy afterExit
             5000 5001 true (Verdict.make "crack" 0.5) None eq_refl eq_refl).
  reflexivity.
Defined.

End StatsProperties.

(** * Properties of the category list *)

Module CategoryProperties.

Import DefectDetector.

#[local] Arguments includes : simpl never.

Section Keys.

Variable toKey : string -> string.

(** What happens to the category list: a category is added or removed,
    or the page is loaded again (a new detector over the same settings
    store, its categories loaded). *)
Inductive Op :=
| Add (stored : bool) (name : string)
| Remove (stored : bool) (name : string)
| Restart.

Definition perform (op : Op) : method t unit :=
  match op with
  | Add stored name => addCategory toKey stored name ;; ret tt
  | Remove stored name => removeCategory stored name
  | Restart => d <- get ;; put (constructed (savedCategories d)) ;; loadCategories
  end.

Definition afterOp (op : Op) (d : t) : t := snd (runState (perform op) d).

Definition afterOps (ops : list Op) (d : t) : t := fold_left (fun d op => afterOp op d) ops d.

(** No category is listed twice, in the detector or in the saved array. *)
Definition distinct (d : t) : Prop :=
  NoDup (categories d) /\
  match savedCategories d with Some l => NoDup l | None => True end.

Lemma includes_In l k : includes l k = true <-> In k l.
Proof.
  unfold includes. rewrite existsb_exists. split.
  - intros (x & Hx & He). apply String.eqb_eq in He. subst. exact Hx.
  - intros H. exists k. split; [exact H | apply String.eqb_refl].
Qed.

Lemma NoDup_snoc (l : list string) k : NoDup l -> ~ In k l -> NoDup (l ++ [k]).
Proof.
  intros Hl Hk. apply NoDup_app; [exact Hl | repeat constructor; intros [] |].
  intros x Hx [<-|[]]. exact (Hk Hx).
Qed.

Lemma defaultCategories_distinct : NoDup defaultCategories.
Proof.
  unfold defaultCategories.
  repeat (constructor; [cbn; intuition congruence|]).
  constructor.
Qed.

Lemma distinct_op op d : distinct d -> distinct (afterOp op d).
Proof.
  unfold distinct, afterOp. destruct d as [cats saved]. cbn. intros [Hc Hs].
  destruct op as [[|] name|[|] name|]; cbn.
  - destruct (includes cats (toKey name)) eqn:Hi; cbn; [auto|].
    assert (NoDup (cats ++ [toKey name])); [|auto].
    apply NoDup_snoc; [exact Hc|]. rewrite <- includes_In, Hi. discriminate.
  - destruct (includes cats (toKey name)) eqn:Hi; cbn; [auto|].
    split; [|exact Hs].
    apply NoDup_snoc; [exact Hc|]. rewrite <- includes_In, Hi. discriminate.
  - split; apply NoDup_filter, Hc.
  - split; [apply NoDup_filter, Hc | exact Hs].
  - destruct saved as [l|]; cbn; [auto|].
    split; [|exact I]. apply defaultCategories_distinct.
Qed.

Lemma distinct_ops ops : forall d, distinct d -> distinct (afterOps ops d).
Proof.
  induction ops as [|op ops IH]; intros d H; [exact H|].
  apply IH, distinct_op, H.
Qed.

(** The list is the one the settings store would give back. *)
Definition persisted (d : t) : Prop :=
  categories d = match savedCategories d with
                 | Some l => l
                 | None => defaultCategories
                 end.

Definition storedOp (op : Op) : Prop :=
  match op with
  | Add stored _ | Remove stored _ => stored = true
  | Restart => True
  end.

Lemma persisted_op op d : storedOp op -> persisted d -> persisted (afterOp op d).
Proof.
  unfold persisted, afterOp. destruct d as [cats saved]. cbn. intros Hst Hp.
  destruct op as [st name|st name|]; cbn in Hst; try subst st; cbn.
  - destruct (includes cats (toKey name)); cbn; [exact Hp | reflexivity].
  - reflexivity.
  - destruct saved as [l|]; reflexivity.
Qed.

Lemma persisted_ops ops : forall d, Forall storedOp ops -> persisted d -> persisted (afterOps ops d).
Proof.
  induction ops as [|op ops IH]; intros d Hst Hp; [exact Hp|].
  inversion Hst; subst. apply IH; [assumption|]. apply persisted_op; assumption.
Qed.

Lemma restart_persisted d : persisted d -> categories (afterOp Restart d) = categories d.
Proof.
  unfold persisted, afterOp. destruct d as [cats [l|]]; cbn; congruence.
Qed.

(** Whatever is added or removed, whether or not the writes reach the
    settings store, and however often the page is loaded again: when no
    category is listed twice, in the detector or in the saved array, none
    is listed twice afterwards. *)
Theorem categories_never_twice (ops : list Op) (d : t) :
  NoDup (categories d) ->
  match savedCategories d with Some l => NoDup l | None => True end ->
  NoDup (categories (afterOps ops d)).
Proof.
  intros Hc Hs. apply (distinct_ops ops d). split; assumption.
Qed.

(** While every write reaches the settings store, the categories survive
    loading the page again: the new detector ends up with the list the
    old one had. *)
Theorem categories_survive_restart (ops : list Op) (d : t) :
  Forall storedOp ops ->
  persisted d ->
  categories (afterOp Restart (afterOps ops d)) = categories (afterOps ops d).
Proof.
  intros Hst Hp. apply restart_persisted, persisted_ops; assumption.
Qed.

(** [addCategory] returns the key of the name and leaves it in the list,
    at the end when it is new; removing the returned key gives the list
    without that key, which is the list as it was when the key is new. *)
Theorem add_then_remove (stored stored' : bool) (name : string) (d : t) :
  let key := fst (runState (addCategory toKey stored name) d) in
  let added := snd (runState (addCategory toKey stored name) d) in
  let removed := snd (runState (removeCategory stored' key) added) in
  key = toKey name /\
  categories added =
    (if includes (categories d) key then categories d else categories d ++ [key]) /\
  In key (categories added) /\
  ~ In key (categories removed) /\
  categories removed =
    (if includes (categories d) key
     then filter (fun c => negb (String.eqb c key)) (categories d)
     else categories d).
Proof.
  intros key added removed. destruct d as [cats saved].
  assert (Hkey : key = toKey name).
  { unfold key, addCategory. cbn -[includes].
    destruct (includes cats (toKey name)); [reflexivity|].
    destruct stored; reflexivity. }
  assert (Hadd : categories added =
                 if includes cats (toKey name) then cats else cats ++ [toKey name]).
  { unfold added, addCategory. cbn -[includes].
    destruct (includes cats (toKey name)); [reflexivity|].
    destruct stored; reflexivity. }
  assert (Hrem : categories removed =
                 filter (fun c => negb (String.eqb c key)) (categories added)).
  { unfold removed, removeCategory. cbn. destruct stored'; reflexivity. }
  rewrite Hrem, Hadd. clearbody key added removed. subst key.
  cbn [categories].
  split; [reflexivity|]. split; [reflexivity|].
  destruct (includes cats (toKey name)) eqn:Hi.
  - split; [apply includes_In, Hi|]. split; [|reflexivity].
    rewrite filter_In, String.eqb_refl. cbn. intros [_ H]. discriminate H.
  - split; [apply in_or_app; right; left; reflexivity|].
    split.
    + rewrite filter_In, String.eqb_refl. cbn. intros [_ H]. discriminate H.
    + rewrite filter_app. cbn [filter]. rewrite String.eqb_refl. cbn [negb].
      rewrite app_nil_r. apply forallb_filter_id, forallb_forall. intros x Hx.
      destruct (String.eqb x (toKey name)) eqn:He; [|reflexivity].
      apply String.eqb_eq in He. subst x.
      apply includes_In in Hx. congruence.
Qed.

End Keys.

(** The key of a name of ASCII characters: upper-case letters are
    lowered, a run of white space becomes one underscore. *)
Definition isSpace (c : ascii) : bool :=
  let n := nat_of_ascii c in ((9 <=? n) && (n <=? 13)) || (n =? 32).

Definition lower (c : ascii) : ascii :=
  let n := nat_of_ascii c in
  if (65 <=? n) && (n <=? 90) then ascii_of_nat (n + 32) else c.

Fixpoint underscored (inRun : bool) (s : string) : string :=
  match s with
  | EmptyString => EmptyString
  | String c rest =>
      if isSpace c
      then if inRun then underscored true rest else String "_" (underscored true rest)
      else String (lower c) (underscored false rest)
  end.

Definition asciiKey (name : string) : string := underscored false name.

(** A session: a category is added twice under two spellings, a default
    one is removed, the page is loaded again. *)
Definition session : list Op :=
  [ Add true "Wrong  Label"; Add true "wrong label"; Remove true "crack"; Restart ].

Lemma categories_never_twice_witness :
  NoDup (categories (afterOps asciiKey session (constructed None))) /\
  categories (afterOps asciiKey session (constructed None)) =
    ["ok"; "scratch"; "wrong_color"; "misalignment"; "wrong_label"].
Proof.
  split; [|reflexivity].
  apply (categories_never_twice asciiKey session (constructed None)).
  - apply defaultCategories_distinct.
  - exact I.
Defined.

Lemma categories_survive_restart_witness :
  categories (afterOp asciiKey Restart (afterOps asciiKey session (constructed None))) =
    ["ok"; "scratch"; "wrong_color"; "misalignment"; "wrong_label"].
Proof.
  rewrite (categories_survive_restart asciiKey session (constructed None)).
  - reflexivity.
  - repeat constructor.
  - reflexivity.
Defined.

(** A write that does not reach the settings store: the category is lost
    when the page is loaded again. *)
Lemma lost_category :
  let d := afterOps asciiKey [Add false "dent"] (constructed None) in
  In "dent" (categories d) /\ ~ In "dent" (categories (afterOp asciiKey Restart d)).
Proof.
  split; vm_compute; [repeat (first [left; reflexivity | right]) | intuition congruence].
Qed.

End CategoryProperties.
